(** * SmartPad: formatters, language detection, find bar and highlighter

    A shallow embedding of the algorithmic core of SmartPad
    ([src/formatters.py], [src/utils.py], [FindBar] in
    [src/text_editor.py] and [SyntaxHighlighter.highlightBlock] in
    [src/syntax_highlighter.py]) together with the properties its
    specification states about it.

    Python [str] values are modelled as [string]; a character is one of
    the 256 code points of Latin-1, and the character classes
    ([str.isspace], [str.lower], the regular expression class [\w]) are
    the Unicode ones restricted to that range.  Python integers that are
    never negative (text offsets, indentation levels, lengths) are [nat],
    with [max(0, n - 1)] written as in the source; those that can be
    negative ([prev_indent], the index [QRegExp.indexIn] returns) are
    [Z]. *)

From Stdlib Require Import List Ascii String Bool Arith Lia ZArith DecimalString
  Sorted.
Import ListNotations.

Local Open Scope string_scope.
Local Open Scope list_scope.

Infix "+++" := String.append (right associativity, at level 60).

(** ** Python string operations *)

Module PyStr.

(** The line feed, the double quote and the other characters that cannot
    be written inside a literal. *)
Definition LF : ascii := ascii_of_nat 10.
Definition TAB : ascii := ascii_of_nat 9.
Definition CR : ascii := ascii_of_nat 13.
Definition DQUOTE : ascii := ascii_of_nat 34.
Definition nl : string := String LF "".

(** Truthiness of a [str]: the empty string is false. *)
Definition truthy (s : string) : bool :=
  match s with
  | EmptyString => false
  | String _ _ => true
  end.

(** [str.isspace] on one character (code points below 256). *)
Definition isspace (c : ascii) : bool :=
  let n := nat_of_ascii c in
  (((9 <=? n) && (n <=? 13)) || ((28 <=? n) && (n <=? 32))
   || (n =? 133) || (n =? 160))%nat.

(** [str.lower] on one character: A-Z, and the Latin-1 capitals
    U+00C0..U+00DE except the multiplication sign U+00D7. *)
Definition lower_char (c : ascii) : ascii :=
  let n := nat_of_ascii c in
  if (((65 <=? n) && (n <=? 90))
      || ((192 <=? n) && (n <=? 222) && negb (n =? 215)))%nat
  then ascii_of_nat (n + 32) else c.

Fixpoint lower (s : string) : string :=
  match s with
  | EmptyString => EmptyString
  | String c r => String (lower_char c) (lower r)
  end.

(** [s.lstrip()] *)
Fixpoint lstrip (s : string) : string :=
  match s with
  | EmptyString => EmptyString
  | String c r => if isspace c then lstrip r else s
  end.

(** [s.rstrip()] *)
Fixpoint rstrip (s : string) : string :=
  match s with
  | EmptyString => EmptyString
  | String c r =>
      match rstrip r with
      | EmptyString => if isspace c then EmptyString else String c EmptyString
      | r' => String c r'
      end
  end.

(** [s.strip()] *)
Definition strip (s : string) : string := rstrip (lstrip s).

(** [s.startswith(p)] and its tuple form [s.startswith((p1, ..., pn))]. *)
Definition startswith (s p : string) : bool := String.prefix p s.

Definition startswith_any (s : string) (ps : list string) : bool :=
  existsb (startswith s) ps.

(** [s.endswith(p)] and its tuple form. *)
Fixpoint endswith (s p : string) : bool :=
  if String.eqb s p then true
  else match s with
       | EmptyString => false
       | String _ r => endswith r p
       end.

Definition endswith_any (s : string) (ps : list string) : bool :=
  existsb (endswith s) ps.

(** [c in s] for a one-character [c]. *)
Fixpoint contains (c : ascii) (s : string) : bool :=
  match s with
  | EmptyString => false
  | String d r => Ascii.eqb d c || contains c r
  end.

(** [s.split(sep)] for a one-character separator: always at least one
    piece, one more piece than there are separators. *)
Fixpoint split (sep : ascii) (s : string) : list string :=
  match s with
  | EmptyString => [EmptyString]
  | String c r =>
      if Ascii.eqb c sep then EmptyString :: split sep r
      else match split sep r with
           | [] => [String c EmptyString]
           | l :: ls => String c l :: ls
           end
  end.

(** [sep.join(ls)] *)
Definition join (sep : string) (ls : list string) : string :=
  String.concat sep ls.

(** [' ' * n] *)
Fixpoint spaces (n : nat) : string :=
  match n with
  | O => EmptyString
  | S k => String " " (spaces k)
  end.

(** Every character of [s] is white space: [not s.strip()]. *)
Fixpoint blank (s : string) : bool :=
  match s with
  | EmptyString => true
  | String c r => isspace c && blank r
  end.

End PyStr.

Import PyStr.

(** ** External libraries

    [xml.dom.minidom] and [json] are not part of the program.  A call
    into them either returns a value or raises; [Raises msg] carries
    [str(e)] of the exception. *)

Inductive outcome (A : Type) : Type :=
| Returns (a : A)
| Raises (msg : string).

Arguments Returns {A} a.
Arguments Raises {A} msg.

(** [xml.dom.minidom]: [parseString(content)] and
    [dom.toprettyxml(indent=...)]. *)
Class XmlLib : Type := {
  dom : Type;
  parseString : string -> outcome dom;
  toprettyxml : dom -> string -> outcome string
}.

(** [json]: [loads(content)] and
    [dumps(data, indent=2, ensure_ascii=False, sort_keys=False)]. *)
Class JsonLib : Type := {
  json_value : Type;
  json_loads : string -> outcome json_value;
  json_dumps : json_value -> outcome string
}.

(** ** [src/formatters.py] *)

Module Formatters.

(** A formatter returns the pair [(formatted, error)]; [None] is
    Python's [None]. *)
Definition result : Type := (option string * option string)%type.

Definition no_content : string := "No content to format".

(** *** [format_xml] *)

(** Lines 33-36: right-trim every line of the pretty-printed text and
    keep the non-empty ones. *)
Fixpoint clean_lines (lines : list string) (cleaned_lines : list string)
  : list string :=
  match lines with
  | [] => cleaned_lines
  | line :: rest =>
      let stripped := rstrip line in
      if truthy stripped then clean_lines rest (cleaned_lines ++ [stripped])
      else clean_lines rest cleaned_lines
  end.

(** [len(line) - len(line.lstrip())] *)
Definition indent_of (line : string) : Z :=
  (Z.of_nat (String.length line) - Z.of_nat (String.length (lstrip line)))%Z.

Definition is_closing (stripped : string) : bool :=
  startswith stripped "</".

Definition is_comment (stripped : string) : bool :=
  startswith stripped "<!--".

Definition is_opening (stripped : string) : bool :=
  startswith stripped "<" && negb (is_closing stripped)
  && negb (startswith stripped "<!--").

(** Truthiness of [prev_line], which is [None] or a [str]. *)
Definition truthy_opt (o : option string) : bool :=
  match o with
  | None => false
  | Some s => truthy s
  end.

(** Lines 65-73: whether a blank line goes before the current line. *)
Definition blank_line_wanted (prev_line : string) (prev_indent : Z)
  (stripped : string) (indent : Z) : bool :=
  if is_opening stripped then
    if startswith (strip prev_line) "</" then (indent <=? prev_indent)%Z
    else if startswith (strip prev_line) "<"
            && negb (startswith (strip prev_line) "<!--")
    then (indent =? prev_indent)%Z && (0 <? indent)%Z
    else false
  else false.

(** Lines 43-77: the loop over [enumerate(cleaned_lines)]; [n] is
    [len(cleaned_lines)], [i] the index of the head of [lines]. *)
Fixpoint spacing_loop (n i : nat) (lines : list string)
  (result_lines : list string) (prev_line : option string) (prev_indent : Z)
  : list string :=
  match lines with
  | [] => result_lines
  | line :: rest =>
      if startswith line "<?xml" then
        let result_lines := result_lines ++ [line] in
        let result_lines :=
          if (Z.of_nat i <? Z.of_nat n - 1)%Z then result_lines ++ [""]
          else result_lines in
        spacing_loop n (S i) rest result_lines prev_line prev_indent
      else
        let indent := indent_of line in
        let stripped := strip line in
        let result_lines :=
          if truthy_opt prev_line && negb (is_comment stripped) then
            match prev_line with
            | Some p =>
                if blank_line_wanted p prev_indent stripped indent
                then result_lines ++ [""] else result_lines
            | None => result_lines
            end
          else result_lines in
        spacing_loop n (S i) rest (result_lines ++ [line]) (Some line) indent
  end.

(** Lines 39-77 as a function of [cleaned_lines]. *)
Definition xml_spacing (cleaned_lines : list string) : list string :=
  spacing_loop (List.length cleaned_lines) 0 cleaned_lines [] None (-1)%Z.

(** [formatted_lines[0] = original_decl] *)
Definition set_first (formatted_lines : list string) (original_decl : string)
  : list string :=
  match formatted_lines with
  | [] => []
  | _ :: rest => original_decl :: rest
  end.

(** Lines 81-88. *)
Definition preserve_declaration (content formatted : string) : string :=
  if startswith (strip content) "<?xml" then
    let original_decl := hd "" (split LF (strip content)) in
    if startswith formatted "<?xml" then
      let formatted_lines := split LF formatted in
      join nl (set_first formatted_lines original_decl)
    else formatted
  else formatted.

Definition format_xml `{XmlLib} (content : string) : result :=
  if negb (truthy (strip content)) then (None, Some no_content)
  else
    match parseString content with
    | Raises e => (None, Some e)
    | Returns d =>
        match toprettyxml d "  " with
        | Raises e => (None, Some e)
        | Returns formatted =>
            let lines := split LF formatted in
            let cleaned_lines := clean_lines lines [] in
            let result_lines := xml_spacing cleaned_lines in
            let formatted := join nl result_lines in
            (Some (preserve_declaration content formatted), None)
        end
    end.

(** *** [format_json] *)

Definition format_json `{JsonLib} (content : string) : result :=
  if negb (truthy (strip content)) then (None, Some no_content)
  else
    match json_loads content with
    | Raises e => (None, Some e)
    | Returns data =>
        match json_dumps data with
        | Raises e => (None, Some e)
        | Returns formatted => (Some formatted, None)
        end
    end.

(** *** [format_python]

    Nothing in the body of [format_python], [format_css] and
    [format_javascript] can raise on a [str], so their [except] branch
    has no counterpart here. *)

Definition python_dedent_before : list string :=
  ["elif "; "else:"; "except"; "finally:"; "except "].

Definition python_dedent_after : list string :=
  ["return "; "break"; "continue"; "pass"; "raise "].

(** Lines 122-140; returns the final [formatted_lines] and
    [indent_level]. *)
Fixpoint python_loop (indent_size : nat) (lines : list string)
  (formatted_lines : list string) (indent_level : nat)
  : list string * nat :=
  match lines with
  | [] => (formatted_lines, indent_level)
  | line :: rest =>
      let stripped := lstrip line in
      if negb (truthy stripped) then
        python_loop indent_size rest (formatted_lines ++ [""]) indent_level
      else
        let indent_level :=
          if startswith_any stripped python_dedent_before
          then Nat.max 0 (indent_level - 1) else indent_level in
        let formatted_line := spaces (indent_level * indent_size) +++ stripped in
        let formatted_lines := formatted_lines ++ [formatted_line] in
        let indent_level :=
          if endswith stripped ":" then indent_level + 1
          else if startswith_any stripped python_dedent_after
               then Nat.max 0 (indent_level - 1)
               else indent_level in
        python_loop indent_size rest formatted_lines indent_level
  end.

Definition format_python (content : string) : result :=
  if negb (truthy (strip content)) then (None, Some no_content)
  else
    let lines := split LF content in
    let formatted_lines := fst (python_loop 4 lines [] 0) in
    (Some (join nl formatted_lines), None).

(** *** [format_css] *)

(** [formatted[-1]] when [formatted] is not empty. *)
Fixpoint last_char (s : string) : option ascii :=
  match s with
  | EmptyString => None
  | String c EmptyString => Some c
  | String _ r => last_char r
  end.

(** Lines 159-178: the loop over the characters of [content]. *)
Fixpoint css_loop (content : string) (formatted : string)
  (indent_level : nat) (in_rule : bool) : string :=
  match content with
  | EmptyString => formatted
  | String char rest =>
      if Ascii.eqb char "{" then
        let formatted := formatted +++ " {" +++ nl in
        let indent_level := indent_level + 1 in
        css_loop rest (formatted +++ spaces (indent_level * 2)) indent_level true
      else if Ascii.eqb char "}" then
        let indent_level := Nat.max 0 (indent_level - 1) in
        css_loop rest (formatted +++ nl +++ spaces (indent_level * 2) +++ "}")
          indent_level false
      else if Ascii.eqb char ";" then
        let formatted := formatted +++ ";" +++ nl in
        let formatted :=
          if in_rule then formatted +++ spaces (indent_level * 2)
          else formatted in
        css_loop rest formatted indent_level in_rule
      else if Ascii.eqb char LF then
        let formatted :=
          match last_char formatted with
          | Some c => if negb (Ascii.eqb c LF) then formatted +++ " "
                      else formatted
          | None => formatted
          end in
        css_loop rest formatted indent_level in_rule
      else css_loop rest (formatted +++ String char "") indent_level in_rule
  end.

(** Lines 181-186: drop trailing white space, keep a blank line only
    after a line that is not blank. *)
Fixpoint css_clean (lines : list string) (cleaned_lines : list string)
  : list string :=
  match lines with
  | [] => cleaned_lines
  | line :: rest =>
      let cleaned := rstrip line in
      if truthy cleaned
         || (match cleaned_lines with
             | [] => false
             | _ => truthy (strip (last cleaned_lines ""))
             end)
      then css_clean rest (cleaned_lines ++ [cleaned])
      else css_clean rest cleaned_lines
  end.

Definition format_css (content : string) : result :=
  if negb (truthy (strip content)) then (None, Some no_content)
  else
    let formatted := css_loop content "" 0 false in
    let lines := split LF formatted in
    let cleaned_lines := css_clean lines [] in
    (Some (join nl cleaned_lines), None).

(** *** [format_javascript] *)

(** Lines 206-225. *)
Fixpoint javascript_loop (indent_size : nat) (lines : list string)
  (formatted_lines : list string) (indent_level : nat)
  : list string * nat :=
  match lines with
  | [] => (formatted_lines, indent_level)
  | line :: rest =>
      let stripped := lstrip line in
      if negb (truthy stripped) then
        javascript_loop indent_size rest (formatted_lines ++ [""]) indent_level
      else
        let indent_level :=
          if startswith_any stripped ["}"; "]"]
          then Nat.max 0 (indent_level - 1) else indent_level in
        let formatted_line := spaces (indent_level * indent_size) +++ stripped in
        let formatted_lines := formatted_lines ++ [formatted_line] in
        let indent_level :=
          if endswith_any stripped ["{"; "["] then indent_level + 1
          else if endswith stripped ";"
                  && negb (startswith_any stripped ["if"; "for"; "while"; "switch"])
               then indent_level
               else indent_level in
        javascript_loop indent_size rest formatted_lines indent_level
  end.

Definition format_javascript (content : string) : result :=
  if negb (truthy (strip content)) then (None, Some no_content)
  else
    let lines := split LF content in
    let formatted_lines := fst (javascript_loop 2 lines [] 0) in
    (Some (join nl formatted_lines), None).

End Formatters.

(** ** Regular expressions ([re])

    The patterns of [src/utils.py] use literals, character classes,
    concatenation and the greedy [+] and [*].  A match at a position is
    computed with Brzozowski derivatives as the longest one; for each
    pattern used here the end of a match is determined by its start, so
    this is the match Python's backtracking finds. *)

Module Re.

Inductive regex : Type :=
| Null                                   (* matches nothing *)
| Eps                                    (* the empty string *)
| Class (p : ascii -> bool)              (* one character of a class *)
| Cat (r1 r2 : regex)
| Alt (r1 r2 : regex)
| Star (r : regex).

Definition Chr (c : ascii) : regex := Class (Ascii.eqb c).
Definition NotChr (c : ascii) : regex := Class (fun d => negb (Ascii.eqb c d)).
Definition Plus (r : regex) : regex := Cat r (Star r).

(** [\w] for [str] patterns: letters, digits and the underscore; in
    Latin-1 this includes the numeric and alphabetic code points above
    U+007F. *)
Definition word_char (c : ascii) : bool :=
  let n := nat_of_ascii c in
  (((48 <=? n) && (n <=? 57)) || ((65 <=? n) && (n <=? 90))
   || ((97 <=? n) && (n <=? 122)) || (n =? 95)
   || (n =? 170) || (n =? 178) || (n =? 179) || (n =? 181)
   || (n =? 185) || (n =? 186) || ((188 <=? n) && (n <=? 190))
   || ((192 <=? n) && (n <=? 214)) || ((216 <=? n) && (n <=? 246))
   || ((248 <=? n) && (n <=? 255)))%nat.

Fixpoint nullable (r : regex) : bool :=
  match r with
  | Null => false
  | Eps => true
  | Class _ => false
  | Cat r1 r2 => nullable r1 && nullable r2
  | Alt r1 r2 => nullable r1 || nullable r2
  | Star _ => true
  end.

Fixpoint deriv (c : ascii) (r : regex) : regex :=
  match r with
  | Null => Null
  | Eps => Null
  | Class p => if p c then Eps else Null
  | Cat r1 r2 =>
      if nullable r1 then Alt (Cat (deriv c r1) r2) (deriv c r2)
      else Cat (deriv c r1) r2
  | Alt r1 r2 => Alt (deriv c r1) (deriv c r2)
  | Star r1 => Cat (deriv c r1) (Star r1)
  end.

(** Length of the longest prefix of [s] that [r] matches. *)
Fixpoint match_length (r : regex) (s : string) : option nat :=
  match s with
  | EmptyString => if nullable r then Some 0 else None
  | String c rest =>
      match match_length (deriv c r) rest with
      | Some n => Some (S n)
      | None => if nullable r then Some 0 else None
      end
  end.

(** [re.search(r, s)] as a truth value. *)
Fixpoint search (r : regex) (s : string) : bool :=
  match match_length r s with
  | Some _ => true
  | None =>
      match s with
      | EmptyString => false
      | String _ rest => search r rest
      end
  end.

(** [len(re.findall(r, s))]: matches are taken left to right and do not
    overlap; [skip] counts the characters of the last match still to
    pass. *)
Fixpoint count_from (r : regex) (s : string) (skip : nat) : nat :=
  match s with
  | EmptyString =>
      match skip, match_length r s with
      | O, Some _ => 1
      | _, _ => 0
      end
  | String _ rest =>
      match skip with
      | S k => count_from r rest k
      | O =>
          match match_length r s with
          | Some n => S (count_from r rest (Nat.pred n))
          | None => count_from r rest 0
          end
      end
  end.

Definition findall_count (r : regex) (s : string) : nat := count_from r s 0.

End Re.

(** ** [json.loads] as a recogniser

    [detect_file_type_from_content] only asks whether [json.loads]
    returns.  [loads_ok] follows the grammar the [json] module accepts
    (including [NaN], [Infinity] and [-Infinity]); the interpreter's
    recursion limit is not modelled. *)

Module Json.

Definition is_ws (c : ascii) : bool :=
  Ascii.eqb c " " || Ascii.eqb c TAB || Ascii.eqb c LF || Ascii.eqb c CR.

Fixpoint skip_ws (s : string) : string :=
  match s with
  | EmptyString => EmptyString
  | String c r => if is_ws c then skip_ws r else s
  end.

Definition is_digit (c : ascii) : bool :=
  let n := nat_of_ascii c in ((48 <=? n) && (n <=? 57))%nat.

Definition is_hex (c : ascii) : bool :=
  let n := nat_of_ascii c in
  (((48 <=? n) && (n <=? 57)) || ((65 <=? n) && (n <=? 70))
   || ((97 <=? n) && (n <=? 102)))%nat.

Fixpoint skip_digits (s : string) : string :=
  match s with
  | EmptyString => EmptyString
  | String c r => if is_digit c then skip_digits r else s
  end.

(** [s[n:]] *)
Fixpoint drop (n : nat) (s : string) : string :=
  match n, s with
  | O, _ => s
  | S _, EmptyString => EmptyString
  | S k, String _ r => drop k r
  end.

(** The body of a string, after its opening quote; gives what follows
    the closing quote. *)
Fixpoint scan_string (s : string) : option string :=
  match s with
  | EmptyString => None
  | String c r =>
      if Ascii.eqb c DQUOTE then Some r
      else if Ascii.eqb c "\" then
        match r with
        | EmptyString => None
        | String e r1 =>
            if Ascii.eqb e DQUOTE || contains e "\/bfnrt" then scan_string r1
            else if Ascii.eqb e "u" then
              match r1 with
              | String h1 (String h2 (String h3 (String h4 r2))) =>
                  if is_hex h1 && is_hex h2 && is_hex h3 && is_hex h4
                  then scan_string r2 else None
              | _ => None
              end
            else None
        end
      else if (nat_of_ascii c <? 32)%nat then None
      else scan_string r
  end.

(** A number: an optional minus sign; then [0], or a digit from 1 to 9
    and any digits; then optionally a point and digits; then optionally
    [e] or [E], an optional sign and digits. *)
Definition scan_int (s : string) : option string :=
  match s with
  | EmptyString => None
  | String c r =>
      if Ascii.eqb c "0" then Some r
      else if is_digit c then Some (skip_digits r)
      else None
  end.

Definition scan_frac (s : string) : string :=
  match s with
  | String "." (String d r) => if is_digit d then skip_digits r else s
  | _ => s
  end.

Definition scan_exp (s : string) : string :=
  match s with
  | String e r =>
      if Ascii.eqb e "e" || Ascii.eqb e "E" then
        let r1 := match r with
                  | String sg r2 =>
                      if Ascii.eqb sg "+" || Ascii.eqb sg "-" then r2 else r
                  | EmptyString => r
                  end in
        match r1 with
        | String d r3 => if is_digit d then skip_digits r3 else s
        | EmptyString => s
        end
      else s
  | EmptyString => s
  end.

Definition scan_number (s : string) : option string :=
  let body := match s with
              | String "-" r => r
              | _ => s
              end in
  match scan_int body with
  | Some r => Some (scan_exp (scan_frac r))
  | None => None
  end.

Definition scan_literal (s : string) : option string :=
  if startswith s "null" then Some (drop 4 s)
  else if startswith s "true" then Some (drop 4 s)
  else if startswith s "false" then Some (drop 5 s)
  else match scan_number s with
       | Some r => Some r
       | None =>
           if startswith s "NaN" then Some (drop 3 s)
           else if startswith s "Infinity" then Some (drop 8 s)
           else if startswith s "-Infinity" then Some (drop 9 s)
           else None
       end.

(** One value at the head of [s]; [scan_members] is at a key of an
    object, [scan_elements] at an element of an array. *)
Fixpoint scan_value (fuel : nat) (s : string) : option string :=
  match fuel with
  | O => None
  | S f =>
      match s with
      | EmptyString => None
      | String c r =>
          if Ascii.eqb c DQUOTE then scan_string r
          else if Ascii.eqb c "{" then
            match skip_ws r with
            | String "}" r1 => Some r1
            | r1 => scan_members f r1
            end
          else if Ascii.eqb c "[" then
            match skip_ws r with
            | String "]" r1 => Some r1
            | r1 => scan_elements f r1
            end
          else scan_literal s
      end
  end
with scan_members (fuel : nat) (s : string) : option string :=
  match fuel with
  | O => None
  | S f =>
      match s with
      | EmptyString => None
      | String c r =>
          if Ascii.eqb c DQUOTE then
            match scan_string r with
            | None => None
            | Some r1 =>
                match skip_ws r1 with
                | String ":" r2 =>
                    match scan_value f (skip_ws r2) with
                    | None => None
                    | Some r3 =>
                        match skip_ws r3 with
                        | String "}" r4 => Some r4
                        | String "," r4 => scan_members f (skip_ws r4)
                        | _ => None
                        end
                    end
                | _ => None
                end
            end
          else None
      end
  end
with scan_elements (fuel : nat) (s : string) : option string :=
  match fuel with
  | O => None
  | S f =>
      match scan_value f s with
      | None => None
      | Some r1 =>
          match skip_ws r1 with
          | String "]" r2 => Some r2
          | String "," r2 => scan_elements f (skip_ws r2)
          | _ => None
          end
      end
  end.

(** [json.loads(s)] returns: one value, white space around it, nothing
    else.  Every call of the scanner consumes a character, so twice the
    length of [s] is fuel enough. *)
Definition loads_ok (s : string) : bool :=
  match scan_value (2 * String.length s + 2) (skip_ws s) with
  | Some r => negb (truthy (skip_ws r))
  | None => false
  end.

End Json.

(** ** [src/utils.py] *)

Module Utils.

(** [pathlib]: [Path(filename).name] and [.suffix], POSIX flavour. *)
Definition path_name (filename : string) : string :=
  last (filter (fun part => truthy part && negb (String.eqb part "."))
               (split "/" filename)) "".

Fixpoint rfind (c : ascii) (s : string) : option nat :=
  match s with
  | EmptyString => None
  | String d r =>
      match rfind c r with
      | Some i => Some (S i)
      | None => if Ascii.eqb d c then Some 0 else None
      end
  end.

Definition path_suffix (filename : string) : string :=
  let name := path_name filename in
  match rfind "." name with
  | Some i =>
      if ((0 <? i) && (i <? String.length name - 1))%nat then Json.drop i name
      else ""
  | None => ""
  end.

(** [language_map] and [dict.get]. *)
Definition language_map : list (string * string) :=
  [ (".xml", "xml"); (".html", "html"); (".htm", "html"); (".json", "json");
    (".py", "python"); (".css", "css"); (".js", "javascript");
    (".jsx", "javascript") ].

Fixpoint dict_get (d : list (string * string)) (key default : string) : string :=
  match d with
  | [] => default
  | (k, v) :: rest => if String.eqb k key then v else dict_get rest key default
  end.

Definition detect_language (filename : string) : string :=
  if negb (truthy filename) then "generic"
  else
    let ext := lower (path_suffix filename) in
    dict_get language_map ext "generic".

(** The patterns of [detect_file_type_from_content]. *)
Import Re.

(** [<[^>]+>] *)
Definition tag_re : regex :=
  Cat (Chr "<") (Cat (Plus (NotChr ">")) (Chr ">")).

(** [</\w+>] *)
Definition closing_tag_re : regex :=
  Cat (Chr "<") (Cat (Chr "/") (Cat (Plus (Class word_char)) (Chr ">"))).

(** [<\w+[^>]*/>] *)
Definition self_closing_tag_re : regex :=
  Cat (Chr "<")
    (Cat (Plus (Class word_char))
       (Cat (Star (NotChr ">")) (Cat (Chr "/") (Chr ">")))).

(** A quote, one or more characters other than a quote, a quote, any
    white space ([\s]) and a colon. *)
Definition json_key_re : regex :=
  Cat (Chr DQUOTE)
    (Cat (Plus (NotChr DQUOTE))
       (Cat (Chr DQUOTE) (Cat (Star (Class isspace)) (Chr ":")))).

(** A colon, any white space, a quote, one or more characters other
    than a quote, and a quote. *)
Definition json_string_value_re : regex :=
  Cat (Chr ":")
    (Cat (Star (Class isspace))
       (Cat (Chr DQUOTE) (Cat (Plus (NotChr DQUOTE)) (Chr DQUOTE)))).

(** Lines 45-55: the content looks like XML. *)
Definition looks_like_xml (content : string) : bool :=
  if search tag_re content then
    let tag_count := findall_count tag_re content in
    if (2 <=? tag_count)%nat then
      if search closing_tag_re content || search self_closing_tag_re content
      then true
      else if (3 <=? tag_count)%nat then true
      else false
    else false
  else false.

Definition detect_file_type_from_content (content : string) : option string :=
  if negb (truthy content) || negb (truthy (strip content)) then None
  else
    let content_stripped := strip content in
    if startswith content_stripped "<?xml" then Some "xml"
    else if looks_like_xml content then Some "xml"
    else if startswith content_stripped "{" || startswith content_stripped "["
    then
      if Json.loads_ok content then Some "json"
      else if (startswith content_stripped "{" && contains "}" content)
              || (startswith content_stripped "[" && contains "]" content)
      then
        if search json_key_re content && search json_string_value_re content
        then Some "json"
        else None
      else None
    else None.

End Utils.

(** ** [TextEditor.auto_format] in [src/text_editor.py]

    The document is the text of the editor widget; [auto_format] gives
    the text after the call.  Message boxes and the status bar are left
    out. *)

Module Editor.

Import Formatters Utils.

(** Lines 578-586: the text is replaced only by a formatted text that is
    not empty. *)
Definition apply_formatting (content : string) (r : result) : string :=
  match fst r with
  | Some formatted => if truthy formatted then formatted else content
  | None => content
  end.

Definition auto_format `{XmlLib} `{JsonLib}
  (current_file : option string) (content : string) : string :=
  if negb (truthy (strip content)) then content
  else
    let language :=
      if truthy_opt current_file
      then option_map detect_language current_file
      else None in
    let language :=
      if negb (truthy_opt language) then
        match detect_file_type_from_content content with
        | Some detected => if truthy detected then Some detected else language
        | None => language
        end
      else language in
    let lang := match language with Some l => l | None => "" end in
    if String.eqb lang "xml" || String.eqb lang "html" then
      apply_formatting content (format_xml content)
    else if String.eqb lang "json" then
      apply_formatting content (format_json content)
    else if String.eqb lang "python" then
      apply_formatting content (format_python content)
    else if String.eqb lang "css" then
      apply_formatting content (format_css content)
    else if String.eqb lang "javascript" then
      apply_formatting content (format_javascript content)
    else
      let after_xml :=
        if contains "<" content && contains ">" content
        then fst (format_xml content) else None in
      if truthy_opt after_xml then apply_formatting content (after_xml, None)
      else
        let after_json :=
          if contains "{" content || contains "[" content
          then fst (format_json content) else None in
        if truthy_opt after_json then apply_formatting content (after_json, None)
        else content.

End Editor.

(** ** [FindBar] in [src/text_editor.py]

    The find bar with the editor widget and the status bar it acts on.
    The widgets and the cursor always exist, so the guards on them are
    left out, and so are the [except] branches that nothing reaches. *)

Module FindBar.

(** [QTextCursor]: anchor and position. *)
Record text_cursor : Type := {
  anchor : nat;
  position : nat
}.

Definition hasSelection (c : text_cursor) : bool :=
  negb (anchor c =? position c)%nat.

Definition selectionStart (c : text_cursor) : nat :=
  Nat.min (anchor c) (position c).

(** [QTextCursor.setPosition]: a position beyond the end of the
    document is refused. *)
Definition setPosition (doc_length pos : nat) (keep_anchor : bool)
  (c : text_cursor) : text_cursor :=
  if (doc_length <? pos)%nat then c
  else if keep_anchor then {| anchor := anchor c; position := pos |}
  else {| anchor := pos; position := pos |}.

(** The find bar, the editor widget it searches and the status bar. *)
Record state : Type := {
  find_edit : string;              (* text of the input field *)
  find_label : string;
  current_match_index : nat;
  total_matches : nat;
  search_text : string;
  match_positions : list nat;
  plain_text : string;             (* text_edit.toPlainText() *)
  cursor : text_cursor;            (* text_edit.textCursor() *)
  status_message : string
}.

(** [__init__], lines 708-711, on a given document. *)
Definition init (text : string) (c : text_cursor) : state :=
  {| find_edit := ""; find_label := "Find:"; current_match_index := 0;
     total_matches := 0; search_text := ""; match_positions := [];
     plain_text := text; cursor := c; status_message := "" |}.

(** [text] starts with [pattern], letter case ignored
    ([re.IGNORECASE] on an escaped, hence literal, pattern). *)
Fixpoint imatch (pattern text : string) : bool :=
  match pattern, text with
  | EmptyString, _ => true
  | String _ _, EmptyString => false
  | String p ps, String t ts =>
      Ascii.eqb (lower_char p) (lower_char t) && imatch ps ts
  end.

(** [match.start()] for each match of
    [re.finditer(re.escape(pattern), text, re.IGNORECASE)], for a
    pattern that is not empty: left to right, not overlapping.  [pos]
    is the offset of the head of [text], [skip] the characters of the
    last match still to pass. *)
Fixpoint finditer_from (pattern text : string) (pos skip : nat) : list nat :=
  match text with
  | EmptyString => []
  | String _ rest =>
      match skip with
      | S k => finditer_from pattern rest (S pos) k
      | O =>
          if imatch pattern text
          then pos :: finditer_from pattern rest (S pos) (String.length pattern - 1)
          else finditer_from pattern rest (S pos) 0
      end
  end.

Definition finditer_starts (pattern text : string) : list nat :=
  finditer_from pattern text 0 0.

(** [str(n)] *)
Definition str_of_nat (n : nat) : string :=
  NilEmpty.string_of_uint (Nat.to_uint n).

(** [f"{current_match_index}/{total_matches}"] *)
Definition counter_label (i n : nat) : string :=
  str_of_nat i +++ "/" +++ str_of_nat n.

Definition set_label (l : string) (st : state) : state :=
  {| find_edit := find_edit st; find_label := l;
     current_match_index := current_match_index st;
     total_matches := total_matches st; search_text := search_text st;
     match_positions := match_positions st; plain_text := plain_text st;
     cursor := cursor st; status_message := status_message st |}.

Definition set_status (m : string) (st : state) : state :=
  {| find_edit := find_edit st; find_label := find_label st;
     current_match_index := current_match_index st;
     total_matches := total_matches st; search_text := search_text st;
     match_positions := match_positions st; plain_text := plain_text st;
     cursor := cursor st; status_message := m |}.

Definition set_current (i : nat) (st : state) : state :=
  {| find_edit := find_edit st; find_label := find_label st;
     current_match_index := i;
     total_matches := total_matches st; search_text := search_text st;
     match_positions := match_positions st; plain_text := plain_text st;
     cursor := cursor st; status_message := status_message st |}.

Definition set_search_text (q : string) (st : state) : state :=
  {| find_edit := find_edit st; find_label := find_label st;
     current_match_index := current_match_index st;
     total_matches := total_matches st; search_text := q;
     match_positions := match_positions st; plain_text := plain_text st;
     cursor := cursor st; status_message := status_message st |}.

Definition set_matches (n : nat) (ps : list nat) (st : state) : state :=
  {| find_edit := find_edit st; find_label := find_label st;
     current_match_index := current_match_index st;
     total_matches := n; search_text := search_text st;
     match_positions := ps; plain_text := plain_text st;
     cursor := cursor st; status_message := status_message st |}.

Definition set_cursor (c : text_cursor) (st : state) : state :=
  {| find_edit := find_edit st; find_label := find_label st;
     current_match_index := current_match_index st;
     total_matches := total_matches st; search_text := search_text st;
     match_positions := match_positions st; plain_text := plain_text st;
     cursor := c; status_message := status_message st |}.

(** [count_matches], lines 784-815. *)
Definition count_matches (st : state) : state :=
  let content := plain_text st in
  if negb (truthy content) || negb (truthy (search_text st)) then
    set_label "Find:" (set_matches 0 [] st)
  else
    let positions := finditer_starts (search_text st) content in
    let st := set_matches (List.length positions) positions st in
    if (0 <? total_matches st)%nat then
      let st := set_current 1 st in
      set_label (counter_label (current_match_index st) (total_matches st)) st
    else set_label "Find: (0)" st.

(** [on_text_changed], lines 766-782: the input field now holds
    [new_search_text]. *)
Definition on_text_changed (new_search_text : string) (st : state) : state :=
  let st :=
    {| find_edit := new_search_text; find_label := find_label st;
       current_match_index := current_match_index st;
       total_matches := total_matches st; search_text := search_text st;
       match_positions := match_positions st; plain_text := plain_text st;
       cursor := cursor st; status_message := status_message st |} in
  if negb (String.eqb new_search_text (search_text st)) then
    let st := set_search_text new_search_text
                (set_matches 0 [] (set_current 0 st)) in
    if truthy (search_text st) then count_matches st
    else set_label "Find:" st
  else st.

(** Lines 872-876: index of the first position after [current_pos]. *)
Fixpoint next_after (positions : list nat) (current_pos : nat) (i : nat)
  : option nat :=
  match positions with
  | [] => None
  | pos :: rest =>
      if (current_pos <? pos)%nat then Some i
      else next_after rest current_pos (S i)
  end.

(** Lines 842-850 of [find_next]: the matches are counted when there
    are none yet. *)
Definition ensure_counted (search_text_now : string) (st : state) : state :=
  let st :=
    if negb (String.eqb search_text_now (search_text st))
    then set_current 0 st else st in
  match match_positions st with
  | [] =>
      if truthy search_text_now
      then count_matches (set_search_text search_text_now st)
      else st
  | _ => st
  end.

(** Lines 865-869: the start of the selection if there is one, the
    cursor position otherwise. *)
Definition current_pos_of (c : text_cursor) : nat :=
  if hasSelection c then selectionStart c else position c.

(** Lines 857-894 of [find_next]: the cursor goes to the next match. *)
Definition select_next (search_text_now : string) (st : state) : state :=
  let c := cursor st in
  let current_pos := current_pos_of c in
  let next_index := next_after (match_positions st) current_pos 0 in
  let st :=
    match next_index with
    | None => set_current 1 st
    | Some i => set_current (i + 1) st
    end in
  let next_index :=
    match next_index with
    | None => 0
    | Some i => i
    end in
  match nth_error (match_positions st) next_index with
  | None =>
      (* IndexError, caught at line 896 *)
      set_label "Find:" (set_status "Search error: list index out of range" st)
  | Some match_pos =>
      let n := String.length (plain_text st) in
      let c := setPosition n match_pos false c in
      let c := setPosition n (match_pos + String.length search_text_now)
                 true c in
      let st := set_cursor c st in
      set_status ("Found " +++ str_of_nat (current_match_index st)
                  +++ " of " +++ str_of_nat (total_matches st))
        (set_label (counter_label (current_match_index st)
                      (total_matches st)) st)
  end.

(** [find_next], lines 834-898. *)
Definition find_next (st : state) : state :=
  let search_text_now := find_edit st in
  if negb (truthy search_text_now) then set_label "Find:" st
  else
    let st := ensure_counted search_text_now st in
    if (total_matches st =? 0)%nat then
      set_status "Text not found" (set_label "Find: (0)" st)
    else select_next search_text_now st.

End FindBar.

(** ** [SyntaxHighlighter.highlightBlock] in [src/syntax_highlighter.py] *)

(** [QRegExp]: [indexIn pattern text offset] gives the index of the
    first match at or after [offset], or [-1], together with what
    [matchedLength()] then returns. *)
Class QRegExpLib : Type := {
  qregexp : Type;
  indexIn : qregexp -> string -> Z -> Z * Z
}.

Module Highlighter.

Section Highlight.

Context `{QRegExpLib}.
Variable text_format : Type.

(** One call [setFormat(start, count, format)]. *)
Record span : Type := {
  span_start : Z;
  span_length : Z;
  span_format : text_format
}.

(** Lines 528-532: the [while] loop of one rule; [fuel] bounds the
    number of iterations, the calls made so far are returned. *)
Fixpoint rule_spans (fuel : nat) (expression : qregexp) (format : text_format)
  (text : string) (index length : Z) : list span :=
  match fuel with
  | O => []
  | S f =>
      if (0 <=? index)%Z then
        let '(index', length') := indexIn expression text (index + length)%Z in
        {| span_start := index; span_length := length; span_format := format |}
          :: rule_spans f expression format text index' length'
      else []
  end.

(** Lines 526-532: every rule in turn.  A rule whose loop is cut short
    by [fuel] is followed by the next rule all the same, so the list has
    every call the pass can make. *)
Fixpoint highlightBlock (fuel : nat)
  (highlighting_rules : list (qregexp * text_format)) (text : string)
  : list span :=
  match highlighting_rules with
  | [] => []
  | (pattern, format) :: rest =>
      let '(index, length) := indexIn pattern text 0%Z in
      rule_spans fuel pattern format text index length
        ++ highlightBlock fuel rest text
  end.

End Highlight.

End Highlighter.

(** ** Specification-level descriptions

    The relations below say, line by line, what the formatters are
    expected to produce; the theorems relate them to the loops above. *)

Module Spec.

Import Formatters.

(** Exactly one member of a result pair is not [None]. *)
Definition exactly_one (r : result) : Prop :=
  (exists t, r = (Some t, None)) \/ (exists e, r = (None, Some e)).

(** What an indentation normaliser does with one line: a line of white
    space only becomes the empty line, any other line is its left-trimmed
    text after some spaces. *)
Definition reindented (line out : string) : Prop :=
  (lstrip line = "" /\ out = "")
  \/ (lstrip line <> "" /\ exists n, out = spaces n +++ lstrip line).

(** One line of the Python-like formatter, from indent level [level]:
    the emitted line and the level afterwards. *)
Inductive python_line (level : nat) (line : string) : string -> nat -> Prop :=
| python_line_blank :
    lstrip line = "" ->
    python_line level line "" level
| python_line_code (level1 level2 : nat) :
    lstrip line <> "" ->
    level1 = (if startswith_any (lstrip line) python_dedent_before
              then Nat.max 0 (level - 1) else level) ->
    level2 = (if endswith (lstrip line) ":" then level1 + 1
              else if startswith_any (lstrip line) python_dedent_after
                   then Nat.max 0 (level1 - 1) else level1) ->
    python_line level line (spaces (level1 * 4) +++ lstrip line) level2.

(** The lines of a text in turn, each from the level the previous one
    left. *)
Inductive python_run : nat -> list string -> list string -> nat -> Prop :=
| python_run_nil (level : nat) : python_run level [] [] level
| python_run_cons (level level1 level2 : nat) (line out : string)
    (lines outs : list string) :
    python_line level line out level1 ->
    python_run level1 lines outs level2 ->
    python_run level (line :: lines) (out :: outs) level2.

(** The blank-line rule of the XML formatter's second pass, between a
    line [cur] and the nearest line [prev] before it that is not a
    declaration line. *)
Definition blank_before (prev cur : string) : bool :=
  is_opening (strip cur)
  && ((is_closing (strip prev) && (indent_of cur <=? indent_of prev)%Z)
      || (is_opening (strip prev) && (indent_of cur =? indent_of prev)%Z
          && (0 <? indent_of cur)%Z)).

(** The second pass: [spaced prev lines out] when [out] is [lines] with
    the blank lines put in, [prev] being the last line before [lines]
    that is not a declaration line. *)
Inductive spaced : option string -> list string -> list string -> Prop :=
| spaced_nil (prev : option string) : spaced prev [] []
| spaced_declaration_last (prev : option string) (line : string) :
    startswith line "<?xml" = true ->
    spaced prev [line] [line]
| spaced_declaration (prev : option string) (line next : string)
    (rest out : list string) :
    startswith line "<?xml" = true ->
    spaced prev (next :: rest) out ->
    spaced prev (line :: next :: rest) (line :: "" :: out)
| spaced_first (line : string) (rest out : list string) :
    startswith line "<?xml" = false ->
    spaced (Some line) rest out ->
    spaced None (line :: rest) (line :: out)
| spaced_blank (prev line : string) (rest out : list string) :
    startswith line "<?xml" = false ->
    blank_before prev line = true ->
    spaced (Some line) rest out ->
    spaced (Some prev) (line :: rest) ("" :: line :: out)
| spaced_plain (prev line : string) (rest out : list string) :
    startswith line "<?xml" = false ->
    blank_before prev line = false ->
    spaced (Some line) rest out ->
    spaced (Some prev) (line :: rest) (line :: out).

(** A piece of CSS text without any of the characters the CSS
    formatter rewrites: braces, semicolon and line feed. *)
Fixpoint css_plain (s : string) : bool :=
  match s with
  | EmptyString => true
  | String c r =>
      negb (Ascii.eqb c "{") && negb (Ascii.eqb c "}")
      && negb (Ascii.eqb c ";") && negb (Ascii.eqb c LF) && css_plain r
  end.

(** What the libraries are relied on for. *)

(** [toprettyxml] on a document starts its text with the XML
    declaration. *)
Definition prints_declaration (L : XmlLib) : Prop :=
  forall (d : dom) (indent t : string),
    toprettyxml d indent = Returns t -> startswith t "<?xml" = true.

(** What [json.dumps] writes is not blank, and [json.loads] reads it
    back as a value that is written the same way. *)
Definition json_round_trip (L : JsonLib) : Prop :=
  forall (v : json_value) (t : string),
    json_dumps v = Returns t ->
    blank t = false /\
    exists v', json_loads t = Returns v' /\ json_dumps v' = Returns t.

(** A span lies inside the line: its start and its length are not
    negative and it ends at or before the end of the line. *)
Definition span_inside {F : Type} (text : string) (sp : Highlighter.span F)
  : Prop :=
  (0 <= Highlighter.span_start F sp
   /\ 0 <= Highlighter.span_length F sp
   /\ Highlighter.span_start F sp + Highlighter.span_length F sp
      <= Z.of_nat (String.length text))%Z.

(** A match reported by [QRegExp.indexIn] lies inside the text. *)
Definition match_in_text (L : QRegExpLib) : Prop :=
  forall (e : qregexp) (text : string) (offset index length : Z),
    indexIn e text offset = (index, length) ->
    (0 <= index)%Z ->
    (0 <= length /\ index + length <= Z.of_nat (String.length text))%Z.

(** A match starts at or after the offset the search started from, and
    is not empty. *)
Definition match_advances (L : QRegExpLib) : Prop :=
  forall (e : qregexp) (text : string) (offset index length : Z),
    indexIn e text offset = (index, length) ->
    (0 <= index)%Z ->
    (offset <= index /\ 0 < length)%Z.

End Spec.

(** ** Small library instances

    Stand-ins for the external libraries, small enough to compute with;
    the general statements are instantiated on them. *)

Module Tiny.

(** The declaration that [toprettyxml] writes. *)
Definition printed_declaration : string :=
  "<?xml version=" +++ String DQUOTE "1.0" +++ String DQUOTE " ?>".

(** The XML document [<a/>] and nothing else. *)
Definition xml_text : string :=
  printed_declaration +++ nl +++ "<a/>" +++ nl.

Definition xml : XmlLib :=
  {| dom := unit;
     parseString := fun content =>
       if endswith (strip content) "<a/>" then Returns tt
       else Raises "syntax error: line 1, column 0";
     toprettyxml := fun _ _ => Returns xml_text |}.

(** JSON with the single value [null]. *)
Definition json : JsonLib :=
  {| json_value := unit;
     json_loads := fun content =>
       if String.eqb (strip content) "null" then Returns tt
       else Raises "Expecting value: line 1 column 1 (char 0)";
     json_dumps := fun _ => Returns "null" |}.

(** The pattern [.]: any one character. *)
Definition any_char : QRegExpLib :=
  {| qregexp := unit;
     indexIn := fun _ text offset =>
       if ((0 <=? offset) && (offset <? Z.of_nat (String.length text)))%Z
       then (offset, 1%Z) else ((-1)%Z, (-1)%Z) |}.

(** A document with the declaration the specification names. *)
Definition latin1_declaration : string :=
  "<?xml version=" +++ String DQUOTE "1.0" +++ String DQUOTE " encoding="
  +++ String DQUOTE "ISO-8859-1" +++ String DQUOTE "?>".

End Tiny.

(** ** Opening a file: [TextEditor.open_file_from_path] and
    [TextEditor.update_syntax_highlighting] in [src/text_editor.py]

    What is modelled is the choice of the language once the file has
    been read: [content] is the text read from [filepath]. *)

Module Opening.

Import Utils.

(** [len(content)] and [content[:n]]; the sizes compared are large, so
    they are integers of [Z]. *)
Definition len (content : string) : Z := Z.of_nat (String.length content).

Definition take (n : Z) (content : string) : string :=
  String.substring 0 (Z.to_nat n) content.

(** Lines 424 and 439: the first 10000 characters of a longer text. *)
Definition sample_of (content : string) : string :=
  if (10000 <? len content)%Z then take 10000 content
  else content.

(** Lines 317-321, 422-427 and 438-442: a generic language gives way to
    what the content shows. *)
Definition detect_if_generic (language content : string) : string :=
  if String.eqb language "generic" then
    match detect_file_type_from_content content with
    | Some detected => if truthy detected then detected else language
    | None => language
    end
  else language.

(** [update_syntax_highlighting], lines 314-331: the language the new
    [SyntaxHighlighter] is made for; [text] is the text of the editor
    widget. *)
Definition update_syntax_highlighting (language text : string) : string :=
  detect_if_generic language text.

(** After [open_file_from_path]: the language named in the status
    message, and the language of the highlighter if there is one. *)
Record opened : Type := {
  shown_language : string;
  highlighter_language : option string
}.

(** Lines 402-447. *)
Definition open_file_from_path (filepath content : string) : opened :=
  let char_count := len content in
  let should_highlight := (char_count <? 500000)%Z in
  let language := detect_language filepath in
  if should_highlight then
    let language := detect_if_generic language (sample_of content) in
    {| shown_language := language;
       highlighter_language :=
         Some (update_syntax_highlighting language content) |}
  else
    let language := detect_if_generic language (sample_of content) in
    {| shown_language := language; highlighter_language := None |}.

End Opening.

(** ** The formats of a block: [QSyntaxHighlighter.setFormat]

    The highlighter keeps one format per character of the block;
    [setFormat(start, count, format)] does nothing when [start] is
    negative or beyond the block, and otherwise overwrites the formats
    from [start] up to [start + count] or the end of the block. *)

Module Painting.

Import Highlighter.

Section Formats.

Variable text_format : Type.

Fixpoint paint (start count : Z) (format : text_format) (i : Z)
  (formats : list (option text_format)) : list (option text_format) :=
  match formats with
  | [] => []
  | f :: rest =>
      (if ((start <=? i) && (i <? start + count))%Z then Some format else f)
        :: paint start count format (i + 1)%Z rest
  end.

Definition setFormat (start count : Z) (format : text_format)
  (formats : list (option text_format)) : list (option text_format) :=
  if ((start <? 0) || (Z.of_nat (List.length formats) <=? start))%Z
  then formats
  else paint start count format 0%Z formats.

(** The formats of a block of [text] after the calls [spans], in order. *)
Definition formats_after (spans : list (span text_format)) (text : string)
  : list (option text_format) :=
  fold_left
    (fun formats sp =>
       setFormat (span_start _ sp) (span_length _ sp) (span_format _ sp) formats)
    spans (repeat None (String.length text)).

(** The span covers the character at offset [p]. *)
Definition covers (sp : span text_format) (p : nat) : Prop :=
  (span_start _ sp <= Z.of_nat p < span_start _ sp + span_length _ sp)%Z.

End Formats.

End Painting.

(** ** Sessions of the find bar *)

Module Session.

Import FindBar.

(** The user edits the document or moves the cursor; nothing tells the
    find bar. *)
Definition with_document (text : string) (c : text_cursor) (st : state)
  : state :=
  {| find_edit := find_edit st; find_label := find_label st;
     current_match_index := current_match_index st;
     total_matches := total_matches st; search_text := search_text st;
     match_positions := match_positions st; plain_text := text;
     cursor := c; status_message := status_message st |}.

(** The states the find bar can be in: it is created, the user types in
    its field, asks for the next match, or works on the document. *)
Inductive reachable : state -> Prop :=
| reachable_init (text : string) (c : text_cursor) :
    reachable (init text c)
| reachable_typed (q : string) (st : state) :
    reachable st -> reachable (on_text_changed q st)
| reachable_next (st : state) :
    reachable st -> reachable (find_next st)
| reachable_edit (text : string) (c : text_cursor) (st : state) :
    reachable st -> reachable (with_document text c st).

(** The counters agree with the list of positions and the stored query
    is the one in the field. *)
Definition well_formed (st : state) : Prop :=
  total_matches st = List.length (match_positions st)
  /\ current_match_index st <= total_matches st
  /\ search_text st = find_edit st.

(** A session on the query [q]: the positions are those of [q] in the
    document as it is now. *)
Definition session (q : string) (st : state) : Prop :=
  find_edit st = q /\ search_text st = q /\ truthy q = true
  /\ match_positions st = finditer_starts q (plain_text st)
  /\ total_matches st = List.length (match_positions st).

(** The selection of a match of [q] at offset [m]. *)
Definition selection_at (q : string) (m : nat) : text_cursor :=
  {| anchor := m; position := m + String.length q |}.

End Session.

(** ** Shapes of formatted text *)

Module Shape.

(** The text without its white space. *)
Fixpoint squeeze (s : string) : string :=
  match s with
  | EmptyString => EmptyString
  | String c r => if isspace c then squeeze r else String c (squeeze r)
  end.

(** No two empty lines in a row. *)
Fixpoint no_double_blank (lines : list string) : Prop :=
  match lines with
  | [] => True
  | l :: rest =>
      match rest with
      | [] => True
      | l2 :: _ => (l <> "" \/ l2 <> "") /\ no_double_blank rest
      end
  end.

(** A line of a normaliser's output: empty, or [k] units of [size]
    spaces and then a text that does not start with white space. *)
Definition indented_by (size : nat) (out : string) : Prop :=
  out = ""
  \/ exists (k : nat) (s : string),
       out = spaces (k * size) +++ s /\ s <> "" /\ lstrip s = s.

End Shape.

(** A pattern that matches the empty string everywhere, as [x*] does on
    a text without [x]. *)
Module Small.

Definition empty_match : QRegExpLib :=
  {| qregexp := unit;
     indexIn := fun _ text offset =>
       if ((0 <=? offset) && (offset <=? Z.of_nat (String.length text)))%Z
       then (offset, 0%Z) else ((-1)%Z, (-1)%Z) |}.

(** A JSON array of two strings that hold tags. *)
Definition json_with_tags : string :=
  "[" +++ String DQUOTE "<a>" +++ String DQUOTE ", "
  +++ String DQUOTE "</a>" +++ String DQUOTE "]".

End Small.

(** ** The rules of a language: [SyntaxHighlighter.setup_highlighting] *)

Module Rules.

(** The methods that fill [highlighting_rules]. *)
Inductive setup : Type :=
| setup_xml_highlighting
| setup_json_highlighting
| setup_python_highlighting
| setup_css_highlighting
| setup_javascript_highlighting
| setup_generic_highlighting.

(** [setup_highlighting], lines 22-37: the method run for a language;
    [setup_html_highlighting], lines 246-248, only calls
    [setup_xml_highlighting]. *)
Definition setup_highlighting (language : string) : setup :=
  if String.eqb language "xml" then setup_xml_highlighting
  else if String.eqb language "json" then setup_json_highlighting
  else if String.eqb language "python" then setup_python_highlighting
  else if String.eqb language "html" then setup_xml_highlighting
  else if String.eqb language "css" then setup_css_highlighting
  else if String.eqb language "javascript" then setup_javascript_highlighting
  else setup_generic_highlighting.

(** The languages [setup_highlighting] has a branch of its own for, and
    [generic]. *)
Definition known_languages : list string :=
  ["xml"; "json"; "python"; "html"; "css"; "javascript"; "generic"].

End Rules.

(** ** The window and its find bar: [TextEditor.show_find_dialog] and
    [TextEditor.find_next] *)

Module Window.

Import FindBar.

Record window : Type := {
  find_bar : state;
  isVisible : bool
}.

(** [QLineEdit.clear]: the field is emptied; [textChanged], connected to
    [on_text_changed] at line 701, is emitted when the text was not
    empty. *)
Definition clear (st : state) : state :=
  if truthy (find_edit st) then on_text_changed "" st else st.

(** [show_find_dialog], lines 601-624. *)
Definition show_find_dialog (w : window) : window :=
  if isVisible w then {| find_bar := find_bar w; isVisible := false |}
  else {| find_bar := clear (find_bar w); isVisible := true |}.

(** [TextEditor.find_next], lines 650-655. *)
Definition find_next (w : window) : window :=
  if isVisible w
  then {| find_bar := FindBar.find_next (find_bar w);
          isVisible := isVisible w |}
  else show_find_dialog w.

End Window.

(** ** Facts about the string operations *)

Section StringFacts.

Lemma append_nil_r (s : string) : s +++ "" = s.
Proof. induction s as [|c r IH]; simpl; congruence. Qed.

Lemma append_assoc (a b c : string) : (a +++ b) +++ c = a +++ (b +++ c).
Proof. induction a as [|x r IH]; simpl; congruence. Qed.

Lemma lstrip_blank (s : string) : blank s = true -> lstrip s = "".
Proof.
  induction s as [|c r IH]; simpl; [reflexivity|].
  destruct (isspace c); simpl; [exact IH | discriminate].
Qed.

Lemma lstrip_not_blank (s : string) : blank s = false -> lstrip s <> "".
Proof.
  induction s as [|c r IH]; simpl; [discriminate|].
  destruct (isspace c); simpl; [exact IH | discriminate].
Qed.

Lemma lstrip_empty_iff (s : string) : lstrip s = "" <-> blank s = true.
Proof.
  split; [|apply lstrip_blank].
  destruct (blank s) eqn:E; [reflexivity|].
  intros H. now apply lstrip_not_blank in E.
Qed.

Lemma blank_lstrip (s : string) : blank (lstrip s) = blank s.
Proof.
  induction s as [|c r IH]; simpl; [reflexivity|].
  destruct (isspace c) eqn:E; simpl; [exact IH | now rewrite E].
Qed.

Lemma rstrip_empty_iff (s : string) : rstrip s = "" <-> blank s = true.
Proof.
  induction s as [|c r IH]; simpl; [tauto|].
  destruct (rstrip r) eqn:E.
  - destruct (isspace c); simpl.
    + split; [intros _; now apply IH | reflexivity].
    + split; discriminate.
  - split; [discriminate|].
    intros H. apply andb_true_iff in H. destruct H as [_ H].
    apply IH in H. discriminate.
Qed.

(** [not s.strip()] is [blank s]. *)
Lemma strip_empty_iff (s : string) : strip s = "" <-> blank s = true.
Proof.
  unfold strip. rewrite rstrip_empty_iff, blank_lstrip. tauto.
Qed.

Lemma truthy_strip (s : string) : truthy (strip s) = negb (blank s).
Proof.
  destruct (blank s) eqn:E.
  - apply strip_empty_iff in E. now rewrite E.
  - destruct (strip s) eqn:F; [|reflexivity].
    apply strip_empty_iff in F. congruence.
Qed.

Lemma lstrip_idem (s : string) : lstrip (lstrip s) = lstrip s.
Proof.
  induction s as [|c r IH]; simpl; [reflexivity|].
  destruct (isspace c) eqn:E; [exact IH | simpl; now rewrite E].
Qed.

Lemma lstrip_spaces (n : nat) (s : string) : lstrip (spaces n +++ s) = lstrip s.
Proof. induction n as [|k IH]; simpl; [reflexivity | exact IH]. Qed.

Lemma blank_app (a b : string) : blank (a +++ b) = blank a && blank b.
Proof.
  induction a as [|c r IH]; simpl; [reflexivity|].
  rewrite IH. now rewrite andb_assoc.
Qed.

Lemma blank_spaces (n : nat) : blank (spaces n) = true.
Proof. induction n as [|k IH]; simpl; [reflexivity | exact IH]. Qed.

Lemma contains_app (c : ascii) (a b : string) :
  contains c (a +++ b) = contains c a || contains c b.
Proof.
  induction a as [|x r IH]; simpl; [reflexivity|].
  rewrite IH. now rewrite orb_assoc.
Qed.

Lemma contains_spaces (n : nat) : contains LF (spaces n) = false.
Proof. induction n as [|k IH]; simpl; [reflexivity | exact IH]. Qed.

Lemma contains_lstrip (c : ascii) (s : string) :
  contains c s = false -> contains c (lstrip s) = false.
Proof.
  induction s as [|x r IH]; simpl; [reflexivity|].
  intros H. apply orb_false_iff in H. destruct H as [H1 H2].
  destruct (isspace x); [now apply IH | simpl; now rewrite H1, H2].
Qed.

Lemma split_not_nil (sep : ascii) (s : string) : split sep s <> [].
Proof.
  induction s as [|c r IH]; simpl; [discriminate|].
  destruct (Ascii.eqb c sep); [discriminate|].
  destruct (split sep r); discriminate.
Qed.

(** No piece of a split contains the separator. *)
Lemma split_no_sep (sep : ascii) (s : string) :
  Forall (fun l => contains sep l = false) (split sep s).
Proof.
  induction s as [|c r IH]; simpl.
  - constructor; [reflexivity | constructor].
  - destruct (Ascii.eqb c sep) eqn:E.
    + constructor; [reflexivity | exact IH].
    + destruct (split sep r) as [|l ls]; [constructor; [simpl; now rewrite E | constructor]|].
      inversion IH; subst. constructor; [simpl; now rewrite E | assumption].
Qed.

Lemma split_app_no_sep (sep : ascii) (a b : string) :
  contains sep a = false ->
  split sep (a +++ String sep b) = a :: split sep b.
Proof.
  induction a as [|c r IH]; simpl; intros H.
  - now rewrite Ascii.eqb_refl.
  - apply orb_false_iff in H. destruct H as [H1 H2].
    rewrite H1, (IH H2). reflexivity.
Qed.

Lemma split_no_sep_single (sep : ascii) (a : string) :
  contains sep a = false -> split sep a = [a].
Proof.
  induction a as [|c r IH]; simpl; intros H; [reflexivity|].
  apply orb_false_iff in H. destruct H as [H1 H2].
  now rewrite H1, (IH H2).
Qed.

(** Splitting a join gives the pieces back, when no piece contains the
    separator and there is at least one piece. *)
Lemma split_join (sep : ascii) (ls : list string) :
  ls <> [] ->
  Forall (fun l => contains sep l = false) ls ->
  split sep (join (String sep "") ls) = ls.
Proof.
  induction ls as [|l ls IH]; intros Hne Hall; [congruence|].
  inversion Hall as [|? ? Hl Hls]; subst.
  destruct ls as [|l2 ls].
  - simpl. now apply split_no_sep_single.
  - change (join (String sep "") (l :: l2 :: ls))
      with (l +++ String sep (join (String sep "") (l2 :: ls))).
    rewrite (split_app_no_sep _ _ _ Hl). f_equal.
    apply IH; [discriminate | assumption].
Qed.

Lemma join_split (sep : ascii) (s : string) :
  join (String sep "") (split sep s) = s.
Proof.
  induction s as [|c r IH]; [reflexivity|].
  simpl split. destruct (Ascii.eqb c sep) eqn:E.
  - apply Ascii.eqb_eq in E. subst c.
    pose proof (split_not_nil sep r) as Hne.
    destruct (split sep r) as [|l ls]; [congruence|].
    change (join (String sep "") ("" :: l :: ls))
      with (String sep (join (String sep "") (l :: ls))).
    now rewrite IH.
  - pose proof (split_not_nil sep r) as Hne.
    destruct (split sep r) as [|l ls]; [congruence|].
    destruct ls as [|l2 ls]; simpl in *; now rewrite <- IH.
Qed.

(** A joined text is blank exactly when every piece is (the line feed
    is white space). *)
Lemma blank_join_nl (ls : list string) :
  blank (join nl ls) = forallb blank ls.
Proof.
  induction ls as [|l ls IH]; [reflexivity|].
  destruct ls as [|l2 ls].
  - simpl. now rewrite andb_true_r.
  - change (join nl (l :: l2 :: ls)) with (l +++ nl +++ join nl (l2 :: ls)).
    rewrite !blank_app, IH. reflexivity.
Qed.

End StringFacts.

(** ** The indentation normalisers *)

Section Reindent.

Import Formatters Spec.

Lemma truthy_false_iff (s : string) : truthy s = false <-> s = "".
Proof. destruct s; simpl; split; congruence. Qed.

Lemma reindented_lstrip (line out : string) :
  reindented line out -> lstrip out = lstrip line.
Proof.
  intros [[H1 H2] | [H1 [n H2]]]; subst out.
  - now rewrite H1.
  - now rewrite lstrip_spaces, lstrip_idem.
Qed.

Lemma reindented_no_newline (line out : string) :
  reindented line out -> contains LF line = false -> contains LF out = false.
Proof.
  intros [[H1 H2] | [H1 [n H2]]] Hl; subst out; [reflexivity|].
  rewrite contains_app, contains_spaces. simpl.
  now apply contains_lstrip.
Qed.

Lemma reindented_blank (line out : string) :
  reindented line out -> blank out = blank line.
Proof.
  intros H. apply reindented_lstrip in H.
  now rewrite <- (blank_lstrip out), H, blank_lstrip.
Qed.

Lemma reindented_all_lstrip (lines outs : list string) :
  Forall2 reindented lines outs -> map lstrip outs = map lstrip lines.
Proof.
  induction 1 as [|l o ls os H _ IH]; simpl; [reflexivity|].
  now rewrite IH, (reindented_lstrip _ _ H).
Qed.

Lemma reindented_all_no_newline (lines outs : list string) :
  Forall2 reindented lines outs ->
  Forall (fun l => contains LF l = false) lines ->
  Forall (fun l => contains LF l = false) outs.
Proof.
  induction 1 as [|l o ls os H _ IH]; intros Hall; [constructor|].
  inversion Hall; subst. constructor; [|now apply IH].
  now apply (reindented_no_newline l).
Qed.

Lemma reindented_all_blank (lines outs : list string) :
  Forall2 reindented lines outs -> forallb blank outs = forallb blank lines.
Proof.
  induction 1 as [|l o ls os H _ IH]; simpl; [reflexivity|].
  now rewrite IH, (reindented_blank _ _ H).
Qed.

Lemma reindented_all_empty (lines outs : list string) :
  Forall2 reindented lines outs ->
  Forall2 (fun line out => lstrip line = "" -> out = "") lines outs.
Proof.
  induction 1 as [|l o ls os H _ IH]; constructor; [|exact IH].
  destruct H as [[_ H] | [H _]]; [auto | intros E; congruence].
Qed.

(** A normaliser [F] that reindents every line and looks at the
    left-trimmed lines only. *)
Variable F : list string -> list string.
Hypothesis F_reindents : forall lines, Forall2 reindented lines (F lines).
Hypothesis F_lstrip_only :
  forall l1 l2, map lstrip l1 = map lstrip l2 -> F l1 = F l2.

Lemma reindent_split (x : string) :
  split LF (join nl (F (split LF x))) = F (split LF x).
Proof.
  apply split_join.
  - pose proof (F_reindents (split LF x)) as H.
    pose proof (split_not_nil LF x) as Hne.
    inversion H; subst; [congruence | discriminate].
  - apply (reindented_all_no_newline (split LF x)); [apply F_reindents|].
    apply split_no_sep.
Qed.

Lemma reindent_blank (x : string) :
  blank (join nl (F (split LF x))) = blank x.
Proof.
  rewrite blank_join_nl, (reindented_all_blank _ _ (F_reindents _)).
  rewrite <- blank_join_nl. unfold nl. now rewrite join_split.
Qed.

Lemma reindent_again (x : string) :
  F (split LF (join nl (F (split LF x)))) = F (split LF x).
Proof.
  rewrite reindent_split. apply F_lstrip_only.
  apply reindented_all_lstrip, F_reindents.
Qed.

End Reindent.

Section Loops.

Import Formatters Spec.

Lemma python_loop_acc (size : nat) (lines acc : list string) (level : nat) :
  python_loop size lines acc level =
  (acc ++ fst (python_loop size lines [] level),
   snd (python_loop size lines [] level)).
Proof.
  revert acc level.
  induction lines as [|line rest IH]; intros acc level; simpl.
  - now rewrite app_nil_r.
  - destruct (negb (truthy (lstrip line))).
    + rewrite (IH (acc ++ [""])), (IH [""]). simpl. now rewrite <- app_assoc.
    + rewrite (IH (acc ++ _)), (IH [_]). simpl. now rewrite <- app_assoc.
Qed.

Lemma python_loop_run (lines : list string) (level : nat) :
  python_run level lines (fst (python_loop 4 lines [] level))
    (snd (python_loop 4 lines [] level)).
Proof.
  revert level.
  induction lines as [|line rest IH]; intros level; simpl; [constructor|].
  destruct (truthy (lstrip line)) eqn:E; simpl.
  - rewrite python_loop_acc. simpl.
    econstructor; [|apply IH].
    apply python_line_code; [|reflexivity|reflexivity].
    intros Hs. rewrite Hs in E. discriminate.
  - rewrite python_loop_acc. simpl.
    econstructor; [|apply IH].
    apply python_line_blank. now apply truthy_false_iff.
Qed.

Lemma python_line_reindented (level level' : nat) (line out : string) :
  python_line level line out level' -> reindented line out.
Proof.
  intros [H | l1 l2 H _ _]; [left; auto | right; eauto].
Qed.

Lemma python_run_reindented (level level' : nat) (lines outs : list string) :
  python_run level lines outs level' -> Forall2 reindented lines outs.
Proof.
  induction 1; constructor; eauto using python_line_reindented.
Qed.

Lemma python_loop_lstrip_only (size : nat) (l1 l2 acc : list string)
  (level : nat) :
  map lstrip l1 = map lstrip l2 ->
  python_loop size l1 acc level = python_loop size l2 acc level.
Proof.
  revert l2 acc level.
  induction l1 as [|a r1 IH]; intros [|b r2] acc level H;
    try discriminate; [reflexivity|].
  simpl in H. injection H as Hab Hr. simpl. rewrite Hab.
  destruct (negb (truthy (lstrip b))); now apply IH.
Qed.

Lemma javascript_loop_acc (size : nat) (lines acc : list string) (level : nat) :
  javascript_loop size lines acc level =
  (acc ++ fst (javascript_loop size lines [] level),
   snd (javascript_loop size lines [] level)).
Proof.
  revert acc level.
  induction lines as [|line rest IH]; intros acc level; simpl.
  - now rewrite app_nil_r.
  - destruct (negb (truthy (lstrip line))).
    + rewrite (IH (acc ++ [""])), (IH [""]). simpl. now rewrite <- app_assoc.
    + rewrite (IH (acc ++ _)), (IH [_]). simpl. now rewrite <- app_assoc.
Qed.

Lemma javascript_loop_reindented (size : nat) (lines : list string)
  (level : nat) :
  Forall2 reindented lines (fst (javascript_loop size lines [] level)).
Proof.
  revert level.
  induction lines as [|line rest IH]; intros level; simpl; [constructor|].
  destruct (truthy (lstrip line)) eqn:E; simpl;
    rewrite javascript_loop_acc; simpl; constructor; try apply IH.
  - right. split; [|eauto].
    intros Hs. rewrite Hs in E. discriminate.
  - left. split; [now apply truthy_false_iff | reflexivity].
Qed.

Lemma javascript_loop_lstrip_only (size : nat) (l1 l2 acc : list string)
  (level : nat) :
  map lstrip l1 = map lstrip l2 ->
  javascript_loop size l1 acc level = javascript_loop size l2 acc level.
Proof.
  revert l2 acc level.
  induction l1 as [|a r1 IH]; intros [|b r2] acc level H;
    try discriminate; [reflexivity|].
  simpl in H. injection H as Hab Hr. simpl. rewrite Hab.
  destruct (negb (truthy (lstrip b))); now apply IH.
Qed.

Lemma python_reindents (lines : list string) :
  Forall2 reindented lines (fst (python_loop 4 lines [] 0)).
Proof. eapply python_run_reindented, python_loop_run. Qed.

Lemma python_lstrip_only (l1 l2 : list string) :
  map lstrip l1 = map lstrip l2 ->
  fst (python_loop 4 l1 [] 0) = fst (python_loop 4 l2 [] 0).
Proof. intros H. now rewrite (python_loop_lstrip_only 4 l1 l2 [] 0 H). Qed.

Lemma javascript_reindents (lines : list string) :
  Forall2 reindented lines (fst (javascript_loop 2 lines [] 0)).
Proof. apply javascript_loop_reindented. Qed.

Lemma javascript_lstrip_only (l1 l2 : list string) :
  map lstrip l1 = map lstrip l2 ->
  fst (javascript_loop 2 l1 [] 0) = fst (javascript_loop 2 l2 [] 0).
Proof. intros H. now rewrite (javascript_loop_lstrip_only 2 l1 l2 [] 0 H). Qed.

(** On a text that is not blank the two normalisers return the joined
    lines of their loop. *)
Lemma format_python_lines (content : string) :
  blank content = false ->
  format_python content =
  (Some (join nl (fst (python_loop 4 (split LF content) [] 0))), None).
Proof.
  intros H. unfold format_python. now rewrite truthy_strip, H.
Qed.

Lemma format_javascript_lines (content : string) :
  blank content = false ->
  format_javascript content =
  (Some (join nl (fst (javascript_loop 2 (split LF content) [] 0))), None).
Proof.
  intros H. unfold format_javascript. now rewrite truthy_strip, H.
Qed.

Lemma format_python_blank (content : string) :
  blank content = true -> format_python content = (None, Some no_content).
Proof. intros H. unfold format_python. now rewrite truthy_strip, H. Qed.

Lemma format_javascript_blank (content : string) :
  blank content = true -> format_javascript content = (None, Some no_content).
Proof. intros H. unfold format_javascript. now rewrite truthy_strip, H. Qed.

Lemma format_css_blank (content : string) :
  blank content = true -> format_css content = (None, Some no_content).
Proof. intros H. unfold format_css. now rewrite truthy_strip, H. Qed.

Lemma format_xml_blank `{XmlLib} (content : string) :
  blank content = true -> format_xml content = (None, Some no_content).
Proof. intros E. unfold format_xml. now rewrite truthy_strip, E. Qed.

Lemma format_json_blank `{JsonLib} (content : string) :
  blank content = true -> format_json content = (None, Some no_content).
Proof. intros E. unfold format_json. now rewrite truthy_strip, E. Qed.

End Loops.

(** ** Properties of the Python-like and JS-like formatters *)

Section NormaliserProperties.

Import Formatters Spec.

(** C10.  On every input that is not white space only, the Python-like
    and the JS-like formatter succeed; the output has as many lines as
    the input; line by line the left-trimmed texts agree, so that only
    the leading white space changes; and a line of white space only is
    emitted as the empty line. *)
Theorem normalisers_change_leading_space_only (content : string) :
  blank content = false ->
  (exists t,
      format_python content = (Some t, None)
      /\ List.length (split LF t) = List.length (split LF content)
      /\ map lstrip (split LF t) = map lstrip (split LF content)
      /\ Forall2 (fun line out => lstrip line = "" -> out = "")
           (split LF content) (split LF t))
  /\ (exists t,
      format_javascript content = (Some t, None)
      /\ List.length (split LF t) = List.length (split LF content)
      /\ map lstrip (split LF t) = map lstrip (split LF content)
      /\ Forall2 (fun line out => lstrip line = "" -> out = "")
           (split LF content) (split LF t)).
Proof.
  intros Hb. split.
  - eexists. split; [now apply format_python_lines|].
    rewrite (reindent_split _ python_reindents).
    pose proof (python_reindents (split LF content)) as HF.
    repeat split.
    + symmetry. eapply Forall2_length, HF.
    + now apply reindented_all_lstrip.
    + now apply reindented_all_empty.
  - eexists. split; [now apply format_javascript_lines|].
    rewrite (reindent_split _ javascript_reindents).
    pose proof (javascript_reindents (split LF content)) as HF.
    repeat split.
    + symmetry. eapply Forall2_length, HF.
    + now apply reindented_all_lstrip.
    + now apply reindented_all_empty.
Qed.

Lemma normalisers_change_leading_space_only_witness :
  exists t,
    format_python ("if x:" +++ nl +++ "   " +++ nl +++ "y") = (Some t, None)
    /\ List.length (split LF t) = 3.
Proof.
  destruct (normalisers_change_leading_space_only
              ("if x:" +++ nl +++ "   " +++ nl +++ "y") eq_refl)
    as [[t [H1 [H2 _]]] _].
  exists t. split; [exact H1 | exact H2].
Defined.

(** C7, as the code has it.  The Python-like formatter handles the lines
    in turn with an indent level that starts at 0 and units of four
    spaces.  A line that is not white space only: the level first goes
    down by one, not below 0, if the left-trimmed line starts with
    [elif ], [else:], [except], [except ] or [finally:]; the left-trimmed
    line is emitted after four spaces per level; then the level goes up
    by one if the left-trimmed line ends with a colon, and otherwise
    down by one, not below 0, if it starts with [return ], [break],
    [continue], [pass] or [raise ].  A line of white space only is
    emitted as the empty line and leaves the level as it is. *)
Theorem format_python_line_by_line (content : string) :
  blank content = false ->
  exists (outs : list string) (level : nat),
    format_python content = (Some (join nl outs), None)
    /\ python_run 0 (split LF content) outs level.
Proof.
  intros Hb.
  exists (fst (python_loop 4 (split LF content) [] 0)),
         (snd (python_loop 4 (split LF content) [] 0)).
  split; [now apply format_python_lines | apply python_loop_run].
Qed.

Lemma format_python_line_by_line_witness :
  exists (outs : list string) (level : nat),
    format_python ("if x:" +++ nl +++ "return 1" +++ nl +++ "else:") =
      (Some (join nl outs), None)
    /\ python_run 0 ["if x:"; "return 1"; "else:"] outs level.
Proof.
  exact (format_python_line_by_line
           ("if x:" +++ nl +++ "return 1" +++ nl +++ "else:") eq_refl).
Defined.

(** C7 as the specification words it does not hold: a line of spaces is
    not passed through unchanged (and is not reindented either), it is
    emitted as the empty line. *)
Lemma format_python_blank_line_changed :
  format_python ("if x:" +++ nl +++ "  " +++ nl +++ "y")
  = (Some ("if x:" +++ nl +++ "" +++ nl +++ "    y"), None)
  /\ ~ (forall content t i line,
          format_python content = (Some t, None) ->
          nth_error (split LF content) i = Some line ->
          lstrip line = "" ->
          nth_error (split LF t) i = Some line).
Proof.
  split; [reflexivity|].
  intros H.
  specialize (H ("if x:" +++ nl +++ "  " +++ nl +++ "y") _ 1 "  "
                eq_refl eq_refl eq_refl).
  vm_compute in H. discriminate.
Qed.

End NormaliserProperties.

(** ** Idempotence *)

Section Idempotence.

Import Formatters Spec.

Lemma format_python_idempotent (x t : string) :
  format_python x = (Some t, None) -> format_python t = (Some t, None).
Proof.
  intros H. destruct (blank x) eqn:Hb.
  - rewrite (format_python_blank _ Hb) in H. discriminate.
  - rewrite (format_python_lines _ Hb) in H. injection H as <-.
    rewrite format_python_lines.
    + now rewrite (reindent_again _ python_reindents python_lstrip_only).
    + now rewrite (reindent_blank _ python_reindents).
Qed.

Lemma format_javascript_idempotent (x t : string) :
  format_javascript x = (Some t, None) -> format_javascript t = (Some t, None).
Proof.
  intros H. destruct (blank x) eqn:Hb.
  - rewrite (format_javascript_blank _ Hb) in H. discriminate.
  - rewrite (format_javascript_lines _ Hb) in H. injection H as <-.
    rewrite format_javascript_lines.
    + now rewrite (reindent_again _ javascript_reindents javascript_lstrip_only).
    + now rewrite (reindent_blank _ javascript_reindents).
Qed.

Lemma format_json_idempotent `{L : JsonLib} (x t : string) :
  json_round_trip L ->
  format_json x = (Some t, None) -> format_json t = (Some t, None).
Proof.
  intros HL H. unfold format_json in H.
  destruct (negb (truthy (strip x))); [discriminate|].
  destruct (json_loads x) as [v|e]; [|discriminate].
  destruct (json_dumps v) as [t'|e] eqn:Hd; [|discriminate].
  injection H as <-.
  destruct (HL v t' Hd) as [Hb [v' [Hl Hd']]].
  unfold format_json. now rewrite truthy_strip, Hb, Hl, Hd'.
Qed.

Lemma tiny_json_round_trip : json_round_trip Tiny.json.
Proof.
  intros v t H. simpl in H. injection H as <-.
  split; [reflexivity|]. exists tt. split; reflexivity.
Qed.

(** C1, as the code has it.  The Python-like and the JS-like formatter
    are idempotent: when formatting [x] succeeds with text [t],
    formatting [t] succeeds with [t] again.  So is the JSON formatter,
    provided the JSON library reads back what it writes.  (The CSS
    formatter is not, and nothing is stated for the XML formatter.) *)
Theorem formatters_idempotent `{L : JsonLib} (x t : string) :
  (format_python x = (Some t, None) -> format_python t = (Some t, None))
  /\ (format_javascript x = (Some t, None) ->
      format_javascript t = (Some t, None))
  /\ (json_round_trip L ->
      format_json x = (Some t, None) -> format_json t = (Some t, None)).
Proof.
  repeat split.
  - apply format_python_idempotent.
  - apply format_javascript_idempotent.
  - intros HL. now apply format_json_idempotent.
Qed.

Lemma formatters_idempotent_witness :
  format_python "pass" = (Some "pass", None)
  /\ format_javascript ("f();" +++ nl +++ "}") = (Some ("f();" +++ nl +++ "}"), None)
  /\ @format_json Tiny.json "null" = (Some "null", None).
Proof.
  split; [|split].
  - exact (proj1 (@formatters_idempotent Tiny.json " pass" "pass") eq_refl).
  - exact (proj1 (proj2 (@formatters_idempotent Tiny.json
                           ("   f();" +++ nl +++ "  }")
                           ("f();" +++ nl +++ "}"))) eq_refl).
  - exact (proj2 (proj2 (@formatters_idempotent Tiny.json " null " "null"))
             tiny_json_round_trip eq_refl).
Defined.

(** Why nothing is stated for the XML formatter.  For a document whose
    declaration and root element share the first line, that whole line
    is taken for the declaration line: the text returned has the
    document followed by the pretty-printed root element, a second root
    that an XML parser refuses when the text is formatted again. *)
Lemma format_xml_one_line_document `{X : XmlLib} (d : dom) :
  parseString "<?xml version='1.0'?><a/>" = Returns d ->
  toprettyxml d "  " = Returns Tiny.xml_text ->
  format_xml "<?xml version='1.0'?><a/>"
  = (Some (join nl ["<?xml version='1.0'?><a/>"; ""; "<a/>"]), None).
Proof.
  intros Hp Ht. unfold format_xml. rewrite Hp, Ht. reflexivity.
Qed.

(** C1 as the specification words it does not hold for the CSS
    formatter: every pass puts one more space before an opening brace. *)
Lemma format_css_not_idempotent :
  format_css "a{}" = (Some ("a {" +++ nl +++ nl +++ "}"), None)
  /\ format_css ("a {" +++ nl +++ nl +++ "}")
     = (Some ("a  {" +++ nl +++ nl +++ "}"), None)
  /\ ~ (forall x t, format_css x = (Some t, None) ->
                    format_css t = (Some t, None)).
Proof.
  split; [reflexivity|]. split; [reflexivity|].
  intros H. specialize (H "a{}" _ eq_refl). vm_compute in H. discriminate.
Qed.

End Idempotence.

(** ** Results of the formatters *)

Section Results.

Import Formatters Spec Editor.

Context `{X : XmlLib} `{J : JsonLib}.

Lemma exactly_one_format_xml (content : string) :
  exactly_one (format_xml content).
Proof.
  unfold format_xml.
  destruct (negb (truthy (strip content))); [right; eauto|].
  destruct (parseString content) as [d|e]; [|right; eauto].
  destruct (toprettyxml d "  ") as [t|e]; [left|right]; eauto.
Qed.

Lemma exactly_one_format_json (content : string) :
  exactly_one (format_json content).
Proof.
  unfold format_json.
  destruct (negb (truthy (strip content))); [right; eauto|].
  destruct (json_loads content) as [d|e]; [|right; eauto].
  destruct (json_dumps d) as [t|e]; [left|right]; eauto.
Qed.

Lemma exactly_one_format_python (content : string) :
  exactly_one (format_python content).
Proof.
  unfold format_python.
  destruct (negb (truthy (strip content))); [right|left]; eauto.
Qed.

Lemma exactly_one_format_css (content : string) :
  exactly_one (format_css content).
Proof.
  unfold format_css.
  destruct (negb (truthy (strip content))); [right|left]; eauto.
Qed.

Lemma exactly_one_format_javascript (content : string) :
  exactly_one (format_javascript content).
Proof.
  unfold format_javascript.
  destruct (negb (truthy (strip content))); [right|left]; eauto.
Qed.

Lemma auto_format_blank (current_file : option string) (content : string) :
  blank content = true -> auto_format current_file content = content.
Proof. intros E. unfold auto_format. now rewrite truthy_strip, E. Qed.

(** C5.  Each of the five formatters returns a pair of which exactly one
    member is not [None].  On an empty or white-space-only input each of
    them returns the error [No content to format] (the specification's
    "no content to format", letter case apart) and no formatted text,
    and the document is left as it was: [auto_format] does not change
    it, and neither would applying any of the five results. *)
Theorem formatter_results (content : string) :
  (exactly_one (format_xml content)
   /\ exactly_one (format_json content)
   /\ exactly_one (format_python content)
   /\ exactly_one (format_css content)
   /\ exactly_one (format_javascript content))
  /\ (blank content = true ->
      lower no_content = "no content to format"
      /\ format_xml content = (None, Some no_content)
      /\ format_json content = (None, Some no_content)
      /\ format_python content = (None, Some no_content)
      /\ format_css content = (None, Some no_content)
      /\ format_javascript content = (None, Some no_content)
      /\ (forall current_file, auto_format current_file content = content)
      /\ apply_formatting content (format_xml content) = content
      /\ apply_formatting content (format_json content) = content
      /\ apply_formatting content (format_python content) = content
      /\ apply_formatting content (format_css content) = content
      /\ apply_formatting content (format_javascript content) = content).
Proof.
  split.
  - auto using exactly_one_format_xml, exactly_one_format_json,
      exactly_one_format_python, exactly_one_format_css,
      exactly_one_format_javascript.
  - intros Hb.
    rewrite (format_xml_blank _ Hb), (format_json_blank _ Hb),
      (format_python_blank _ Hb), (format_css_blank _ Hb),
      (format_javascript_blank _ Hb).
    repeat split; try reflexivity.
    intros f. now apply auto_format_blank.
Qed.

End Results.

Lemma formatter_results_witness :
  @Formatters.format_xml Tiny.xml ("  " +++ nl)
    = (None, Some "No content to format")
  /\ Formatters.format_css "" = (None, Some "No content to format")
  /\ @Editor.auto_format Tiny.xml Tiny.json None ("  " +++ nl) = "  " +++ nl.
Proof.
  pose proof (proj2 (@formatter_results Tiny.xml Tiny.json ("  " +++ nl))
                eq_refl) as H.
  pose proof (proj2 (@formatter_results Tiny.xml Tiny.json "") eq_refl) as H0.
  split; [apply H|]. split; [apply H0 | apply H].
Defined.

(** ** The second pass of the XML formatter *)

Section XmlSpacing.

Import Formatters Spec.

(** The test the loop makes before a line is [blank_before]. *)
Lemma blank_line_test (p line : string) :
  truthy_opt (Some p) && negb (is_comment (strip line))
  && blank_line_wanted p (indent_of p) (strip line) (indent_of line)
  = blank_before p line.
Proof.
  unfold blank_line_wanted, blank_before, is_opening, is_closing, is_comment.
  destruct p as [|c r].
  - simpl. now rewrite andb_false_r.
  - cbn [truthy_opt truthy].
    destruct (startswith (strip line) "<");
      destruct (startswith (strip line) "</");
      destruct (startswith (strip line) "<!--");
      destruct (startswith (strip (String c r)) "</");
      destruct (startswith (strip (String c r)) "<");
      destruct (startswith (strip (String c r)) "<!--");
      destruct (indent_of line <=? indent_of (String c r))%Z;
      destruct (indent_of line =? indent_of (String c r))%Z;
      destruct (0 <? indent_of line)%Z; reflexivity.
Qed.

Lemma spacing_loop_spaced (lines : list string) :
  forall (n i : nat) (acc : list string) (prev : option string) (pind : Z),
    n = i + List.length lines ->
    (forall p, prev = Some p -> pind = indent_of p) ->
    exists out,
      spacing_loop n i lines acc prev pind = acc ++ out
      /\ spaced prev lines out.
Proof.
  induction lines as [|line rest IH]; intros n i acc prev pind Hn Hp.
  - exists []. simpl. rewrite app_nil_r. split; [reflexivity | constructor].
  - simpl. destruct (startswith line "<?xml") eqn:Hd.
    + destruct rest as [|next rest'].
      * exists [line]. simpl in Hn.
        replace (Z.of_nat i <? Z.of_nat n - 1)%Z with false
          by (symmetry; apply Z.ltb_ge; lia).
        simpl. split; [reflexivity | now constructor].
      * replace (Z.of_nat i <? Z.of_nat n - 1)%Z with true
          by (symmetry; apply Z.ltb_lt; simpl in Hn; lia).
        destruct (IH n (S i) ((acc ++ [line]) ++ [""]) prev pind) as [out [E Sp]];
          [simpl in *; lia | exact Hp |].
        exists (line :: "" :: out). split; [|now constructor].
        rewrite E, <- !app_assoc. reflexivity.
    + destruct prev as [p|].
      * rewrite (Hp p eq_refl).
        destruct (IH n (S i)
                    ((if blank_before p line then acc ++ [""] else acc) ++ [line])
                    (Some line) (indent_of line))
          as [out [E Sp]]; [simpl in *; lia | intros q [= <-]; reflexivity |].
        pose proof (blank_line_test p line) as T.
        destruct (blank_before p line) eqn:B.
        -- apply andb_true_iff in T. destruct T as [T1 T2].
           rewrite T1, T2, E.
           exists ("" :: line :: out). split; [|now constructor].
           now rewrite <- !app_assoc.
        -- exists (line :: out). split; [|now constructor].
           destruct (truthy_opt (Some p) && negb (is_comment (strip line)));
             [simpl in T; rewrite T|]; now rewrite E, <- app_assoc.
      * destruct (IH n (S i) (acc ++ [line]) (Some line) (indent_of line))
          as [out [E Sp]]; [simpl in *; lia | intros q [= <-]; reflexivity |].
        exists (line :: out). split; [|now constructor].
        cbn [truthy_opt andb]. now rewrite E, <- app_assoc.
Qed.

Lemma xml_spacing_spaced (lines : list string) :
  spaced None lines (xml_spacing lines).
Proof.
  destruct (spacing_loop_spaced lines (List.length lines) 0 [] None (-1)%Z)
    as [out [E Sp]]; [reflexivity | discriminate |].
  unfold xml_spacing. now rewrite E.
Qed.







End XmlSpacing.

(** ** The XML declaration line *)

Section XmlDeclaration.

Import Formatters Spec.

Lemma rstrip_cons_not_space (c : ascii) (r : string) :
  isspace c = false -> rstrip (String c r) = String c (rstrip r).
Proof. intros H. simpl. destruct (rstrip r); now rewrite ?H. Qed.

Lemma rstrip_app_not_blank (a b : string) :
  blank b = false -> rstrip (a +++ b) = a +++ rstrip b.
Proof.
  intros Hb. induction a as [|c r IH]; [reflexivity|].
  simpl. rewrite IH.
  destruct (r +++ rstrip b) eqn:E; [|reflexivity].
  destruct r; [|discriminate]. simpl in E.
  apply rstrip_empty_iff in E. congruence.
Qed.

Lemma prefix_app_inv (p s : string) :
  String.prefix p s = true -> exists r, s = p +++ r.
Proof.
  revert s. induction p as [|a p IH]; intros s H; [now exists s|].
  destruct s as [|b s]; [discriminate|]. simpl in H.
  destruct (ascii_dec a b) as [<-|]; [|discriminate].
  destruct (IH s H) as [r ->]. now exists r.
Qed.

Lemma prefix_app (p r : string) : String.prefix p (p +++ r) = true.
Proof.
  induction p as [|a p IH]; [now destruct r|].
  simpl. destruct (ascii_dec a a); [exact IH | congruence].
Qed.

Lemma startswith_app (a b p : string) :
  startswith a p = true -> startswith (a +++ b) p = true.
Proof.
  unfold startswith. intros H.
  destruct (prefix_app_inv _ _ H) as [r ->].
  rewrite append_assoc. apply prefix_app.
Qed.

Lemma declaration_rstrip (s : string) :
  startswith s "<?xml" = true ->
  startswith (rstrip s) "<?xml" = true /\ truthy (rstrip s) = true.
Proof.
  intros H. destruct (prefix_app_inv _ _ H) as [r ->].
  change ("<?xml" +++ r)
    with (String "<" (String "?" (String "x" (String "m" (String "l" r))))).
  rewrite !rstrip_cons_not_space by reflexivity.
  split; [apply (prefix_app "<?xml") | reflexivity].
Qed.

(** The first piece of a split starts as the text does. *)
Lemma split_head_prefix (sep : ascii) (p s : string) :
  String.prefix p s = true -> contains sep p = false ->
  exists l ls, split sep s = l :: ls /\ String.prefix p l = true.
Proof.
  revert s. induction p as [|a p IH]; intros s H Hc.
  - pose proof (split_not_nil sep s) as Hne.
    destruct (split sep s) as [|l ls]; [congruence|].
    exists l, ls. split; [reflexivity | now destruct l].
  - destruct s as [|b s]; [discriminate|]. simpl in H.
    destruct (ascii_dec a b) as [<-|]; [|discriminate].
    simpl in Hc. apply orb_false_iff in Hc. destruct Hc as [Ha Hp].
    destruct (IH s H Hp) as [l [ls [E Hl]]].
    exists (String a l), ls. simpl. rewrite Ha, E.
    split; [reflexivity|]. destruct (ascii_dec a a); [exact Hl | congruence].
Qed.

Lemma clean_lines_acc (lines acc : list string) :
  clean_lines lines acc = acc ++ clean_lines lines [].
Proof.
  revert acc. induction lines as [|l ls IH]; intros acc; simpl.
  - now rewrite app_nil_r.
  - destruct (truthy (rstrip l)); [|apply IH].
    rewrite (IH (acc ++ _)), (IH [_]). now rewrite <- app_assoc.
Qed.

Lemma join_head (l : string) (ls : list string) :
  exists r, join nl (l :: ls) = l +++ r.
Proof.
  destruct ls as [|l2 ls].
  - exists "". simpl. now rewrite append_nil_r.
  - now exists (nl +++ join nl (l2 :: ls)).
Qed.

Lemma split_join_head (l : string) (ls : list string) :
  contains LF l = false -> hd "" (split LF (join nl (l :: ls))) = l.
Proof.
  intros H. destruct ls as [|l2 ls].
  - simpl. now rewrite split_no_sep_single.
  - change (join nl (l :: l2 :: ls)) with (l +++ String LF (join nl (l2 :: ls))).
    now rewrite split_app_no_sep.
Qed.

(** The pretty-printed text, cleaned and spaced, starts with the
    declaration the printer wrote. *)
Lemma spaced_text_declaration (t : string) :
  startswith t "<?xml" = true ->
  startswith (join nl (xml_spacing (clean_lines (split LF t) []))) "<?xml"
  = true.
Proof.
  intros H.
  destruct (split_head_prefix LF "<?xml" t H eq_refl) as [l [ls [E Hl]]].
  rewrite E. simpl clean_lines.
  destruct (declaration_rstrip l Hl) as [Hd Ht]. rewrite Ht.
  rewrite clean_lines_acc. simpl app.
  pose proof (xml_spacing_spaced (rstrip l :: clean_lines ls [])) as Sp.
  inversion Sp as [| ? ? _ Eq1 Eq2 | ? ? ? ? ? _ _ Eq1 Eq2
                   | ? ? ? Hn _ Eq1 Eq2 | |]; subst.
  - exact Hd.
  - destruct (join_head (rstrip l) ("" :: out)) as [r ->].
    now apply startswith_app.
  - unfold startswith in Hn, Hd. congruence.
Qed.

Lemma format_xml_first_line `{L : XmlLib} (content t : string) :
  prints_declaration L ->
  startswith (strip content) "<?xml" = true ->
  format_xml content = (Some t, None) ->
  hd "" (split LF t) = hd "" (split LF (strip content)).
Proof.
  intros HL Hc H. unfold format_xml in H.
  destruct (negb (truthy (strip content))); [discriminate|].
  destruct (parseString content) as [d|e]; [|discriminate].
  destruct (toprettyxml d "  ") as [p|e] eqn:Hp; [|discriminate].
  injection H as <-.
  unfold preserve_declaration. rewrite Hc.
  rewrite (spaced_text_declaration p (HL _ _ _ Hp)).
  pose proof (split_not_nil LF
                (join nl (xml_spacing (clean_lines (split LF p) [])))) as Hne.
  destruct (split LF (join nl (xml_spacing (clean_lines (split LF p) []))))
    as [|f fs]; [congruence|].
  simpl set_first. apply split_join_head.
  pose proof (split_no_sep LF (strip content)) as Hall.
  destruct (split LF (strip content)) as [|a b]; [reflexivity|].
  now inversion Hall.
Qed.

(** The first line of a text that starts with a declaration line and
    goes on with something that is not blank. *)
Lemma declaration_line_of_content (decl rest : string) :
  startswith decl "<?xml" = true ->
  contains LF decl = false ->
  blank rest = false ->
  startswith (strip (decl +++ nl +++ rest)) "<?xml" = true
  /\ hd "" (split LF (strip (decl +++ nl +++ rest))) = decl.
Proof.
  intros Hd Hn Hb.
  assert (E : strip (decl +++ nl +++ rest) = decl +++ String LF (rstrip rest)).
  { unfold strip.
    destruct (prefix_app_inv _ _ Hd) as [r ->].
    change (lstrip (("<?xml" +++ r) +++ nl +++ rest))
      with (("<?xml" +++ r) +++ nl +++ rest).
    rewrite <- append_assoc, rstrip_app_not_blank by exact Hb.
    now rewrite append_assoc. }
  rewrite E. split.
  - now apply startswith_app.
  - now rewrite split_app_no_sep.
Qed.

(** A prefix without the separator lies before the first separator. *)
Lemma prefix_before_sep (sep : ascii) (p a b : string) :
  String.prefix p (a +++ String sep b) = true ->
  contains sep p = false ->
  String.prefix p a = true.
Proof.
  revert a. induction p as [|c p IH]; intros a H Hc; [now destruct a|].
  simpl in Hc. apply orb_false_iff in Hc. destruct Hc as [Hc1 Hc2].
  destruct a as [|d a]; simpl in H |- *.
  - destruct (ascii_dec c sep) as [->|]; [|discriminate].
    now rewrite Ascii.eqb_refl in Hc1.
  - destruct (ascii_dec c d); [now apply IH | discriminate].
Qed.

Lemma declaration_strip (content : string) :
  startswith content "<?xml" = true ->
  startswith (strip content) "<?xml" = true.
Proof.
  intros H. unfold strip.
  destruct (prefix_app_inv _ _ H) as [r E].
  replace (lstrip content) with content by (now rewrite E).
  now apply declaration_rstrip.
Qed.

(** C6.  When the input starts with an XML declaration and formatting
    succeeds, the first line of the formatted text is the first line of
    the input (trimmed as a whole), character for character, whatever
    declaration the pretty-printer wrote; in particular, when the
    declaration line is followed by the rest of the document, the first
    line of the formatted text is that declaration line.  ([toprettyxml]
    is relied on to start its text with a declaration.) *)
Theorem xml_declaration_preserved `{L : XmlLib} (content t : string) :
  prints_declaration L ->
  startswith content "<?xml" = true ->
  format_xml content = (Some t, None) ->
  hd "" (split LF t) = hd "" (split LF (strip content))
  /\ (forall decl rest,
        content = decl +++ nl +++ rest ->
        contains LF decl = false ->
        blank rest = false ->
        hd "" (split LF t) = decl).
Proof.
  intros HL Hc H.
  assert (E : hd "" (split LF t) = hd "" (split LF (strip content))).
  { apply format_xml_first_line; [exact HL | | exact H].
    now apply declaration_strip. }
  split; [exact E|].
  intros decl rest -> Hn Hb.
  assert (Hd : startswith decl "<?xml" = true)
    by (apply (prefix_before_sep LF "<?xml" decl rest Hc); reflexivity).
  rewrite E.
  apply (declaration_line_of_content decl rest Hd Hn Hb).
Qed.

Lemma tiny_xml_prints_declaration : prints_declaration Tiny.xml.
Proof. intros d i t H. simpl in H. injection H as <-. reflexivity. Qed.

Lemma xml_declaration_preserved_witness :
  exists t,
    @format_xml Tiny.xml (Tiny.latin1_declaration +++ nl +++ "<a/>")
      = (Some t, None)
    /\ hd "" (split LF t) = Tiny.latin1_declaration.
Proof.
  eexists. split; [reflexivity|].
  exact (proj2 (@xml_declaration_preserved Tiny.xml
                  (Tiny.latin1_declaration +++ nl +++ "<a/>") _
                  tiny_xml_prints_declaration eq_refl eq_refl)
           Tiny.latin1_declaration "<a/>" eq_refl eq_refl eq_refl).
Defined.

End XmlDeclaration.

(** ** Language detection *)

Section Detection.

Import Utils.

Lemma lower_char_dot (c : ascii) :
  Ascii.eqb (lower_char c) "." = Ascii.eqb c ".".
Proof. destruct c as [[] [] [] [] [] [] [] []]; vm_compute; reflexivity. Qed.

Lemma lower_char_slash (c : ascii) :
  Ascii.eqb (lower_char c) "/" = Ascii.eqb c "/".
Proof. destruct c as [[] [] [] [] [] [] [] []]; vm_compute; reflexivity. Qed.

Lemma truthy_lower (s : string) : truthy (lower s) = truthy s.
Proof. now destruct s. Qed.

Lemma length_lower (s : string) : String.length (lower s) = String.length s.
Proof. induction s as [|c r IH]; simpl; congruence. Qed.

Lemma lower_is_dot (s : string) : String.eqb (lower s) "." = String.eqb s ".".
Proof.
  destruct s as [|c [|d r]]; simpl; rewrite ?lower_char_dot;
    try reflexivity.
Qed.

Lemma split_lower (s : string) :
  split "/" (lower s) = map lower (split "/" s).
Proof.
  induction s as [|c r IH]; [reflexivity|].
  simpl. rewrite lower_char_slash, IH.
  destruct (Ascii.eqb c "/"); [reflexivity|].
  now destruct (split "/" r).
Qed.

Lemma last_map_lower (l : list string) :
  last (map lower l) "" = lower (last l "").
Proof.
  induction l as [|a [|b r] IH]; try reflexivity.
  exact IH.
Qed.

Lemma path_name_lower (f : string) : path_name (lower f) = lower (path_name f).
Proof.
  unfold path_name. rewrite split_lower, <- last_map_lower. f_equal.
  induction (split "/" f) as [|a l IH]; [reflexivity|].
  simpl. rewrite truthy_lower, lower_is_dot, IH.
  now destruct (truthy a && negb (String.eqb a ".")).
Qed.

Lemma rfind_lower (s : string) : rfind "." (lower s) = rfind "." s.
Proof.
  induction s as [|c r IH]; [reflexivity|].
  simpl. now rewrite IH, lower_char_dot.
Qed.

Lemma drop_lower (n : nat) (s : string) :
  Json.drop n (lower s) = lower (Json.drop n s).
Proof.
  revert s. induction n as [|k IH]; intros s; [reflexivity|].
  destruct s as [|c r]; [reflexivity | apply IH].
Qed.

Lemma path_suffix_lower (f : string) :
  path_suffix (lower f) = lower (path_suffix f).
Proof.
  unfold path_suffix. rewrite path_name_lower, rfind_lower, length_lower.
  destruct (rfind "." (path_name f)) as [i|]; [|reflexivity].
  destruct ((0 <? i) && (i <? String.length (path_name f) - 1))%nat;
    [apply drop_lower | reflexivity].
Qed.

Lemma detect_language_case (f1 f2 : string) :
  lower f1 = lower f2 -> detect_language f1 = detect_language f2.
Proof.
  intros H. unfold detect_language.
  rewrite <- (truthy_lower f1), <- (truthy_lower f2), H.
  now rewrite <- !path_suffix_lower, H.
Qed.

Lemma dict_get_absent (d : list (string * string)) (key default : string) :
  (forall k v, In (k, v) d -> k <> key) -> dict_get d key default = default.
Proof.
  induction d as [|[k v] d IH]; intros H; [reflexivity|].
  simpl. destruct (String.eqb_spec k key) as [E|_].
  - exfalso. apply (H k v); [now left | exact E].
  - apply IH. intros k' v' Hin. apply (H k' v'). now right.
Qed.

Lemma language_map_get (k v : string) :
  In (k, v) language_map -> dict_get language_map k "generic" = v.
Proof.
  unfold language_map. simpl.
  intros H. repeat (destruct H as [[= <- <-] | H]; [reflexivity|]).
  contradiction.
Qed.

(** C8.  The extension lookup ignores letter case and goes through the
    fixed table: an extension of the table gives its language, an
    extension that is not in the table, or no extension, gives
    [generic]; so [foo.JSON] gives [json].  Detection from the content
    gives [json] for an object with the key [a] and the value 1, [xml]
    for [<a><b/></a>], and nothing for [plain text, no markup]. *)
Theorem language_detection :
  (forall f1 f2, lower f1 = lower f2 -> detect_language f1 = detect_language f2)
  /\ (forall f k v,
        truthy f = true -> In (k, v) language_map ->
        lower (path_suffix f) = k -> detect_language f = v)
  /\ (forall f,
        (forall k v, In (k, v) language_map -> k <> lower (path_suffix f)) ->
        detect_language f = "generic")
  /\ (forall f, path_suffix f = "" -> detect_language f = "generic")
  /\ detect_language "" = "generic"
  /\ detect_language "foo.JSON" = "json"
  /\ detect_file_type_from_content
       ("{" +++ String DQUOTE "a" +++ String DQUOTE ": 1}") = Some "json"
  /\ detect_file_type_from_content "<a><b/></a>" = Some "xml"
  /\ detect_file_type_from_content "plain text, no markup" = None.
Proof.
  split; [exact detect_language_case|].
  split.
  { intros f k v Hf Hin Hk. unfold detect_language.
    rewrite Hf, Hk. cbn [negb]. now apply language_map_get. }
  split.
  { intros f H. unfold detect_language.
    destruct (truthy f); [|reflexivity]. cbn [negb]. now apply dict_get_absent. }
  split.
  { intros f H. unfold detect_language. rewrite H.
    now destruct (truthy f). }
  repeat split; vm_compute; reflexivity.
Qed.

End Detection.

(** ** The find bar *)

Section Find.

Import FindBar.

Lemma imatch_length (q t : string) :
  imatch q t = true -> String.length q <= String.length t.
Proof.
  revert t. induction q as [|a q IH]; intros t H; simpl; [lia|].
  destruct t as [|b t]; [discriminate|]. simpl in H.
  apply andb_true_iff in H. destruct H as [_ H].
  apply IH in H. simpl. lia.
Qed.

(** Every match lies inside the text, at or after the point the scan
    started from. *)
Lemma finditer_from_bounds (q text : string) :
  forall pos skip p,
    In p (finditer_from q text pos skip) ->
    pos <= p /\ p + String.length q <= pos + String.length text.
Proof.
  induction text as [|c rest IH]; intros pos skip p H; [contradiction|].
  simpl in H. destruct skip as [|k].
  - destruct (imatch q (String c rest)) eqn:E.
    + destruct H as [<- | H].
      * apply imatch_length in E. lia.
      * apply IH in H. simpl. lia.
    + apply IH in H. simpl. lia.
  - apply IH in H. simpl. lia.
Qed.

Lemma finditer_starts_bounds (q text : string) (p : nat) :
  In p (finditer_starts q text) ->
  p + String.length q <= String.length text.
Proof. intros H. apply finditer_from_bounds in H. lia. Qed.

(** The offsets come in increasing order. *)
Lemma finditer_from_sorted (q text : string) :
  forall pos skip, StronglySorted lt (finditer_from q text pos skip).
Proof.
  induction text as [|c rest IH]; intros pos skip; simpl; [constructor|].
  destruct skip as [|k]; [|apply IH].
  destruct (imatch q (String c rest)); [|apply IH].
  constructor; [apply IH|].
  apply Forall_forall. intros p Hp. apply finditer_from_bounds in Hp. lia.
Qed.

Lemma next_after_found (l1 l2 : list nat) (m cur i : nat) :
  Forall (fun p => p <= cur) l1 -> cur < m ->
  next_after (l1 ++ m :: l2) cur i = Some (i + List.length l1).
Proof.
  revert i. induction l1 as [|a l1 IH]; intros i Hall Hm; simpl.
  - apply Nat.ltb_lt in Hm. rewrite Hm. f_equal. lia.
  - inversion Hall as [|? ? Ha Hl]; subst.
    replace (cur <? a)%nat with false by (symmetry; apply Nat.ltb_ge; lia).
    rewrite IH by assumption. f_equal. lia.
Qed.

Lemma next_after_none (l : list nat) (cur i : nat) :
  Forall (fun p => p <= cur) l -> next_after l cur i = None.
Proof.
  revert i. induction l as [|a l IH]; intros i Hall; [reflexivity|].
  inversion Hall as [|? ? Ha Hl]; subst. simpl.
  replace (cur <? a)%nat with false by (symmetry; apply Nat.ltb_ge; lia).
  now apply IH.
Qed.

Lemma nth_error_middle (l1 l2 : list nat) (m : nat) :
  nth_error (l1 ++ m :: l2) (List.length l1) = Some m.
Proof. induction l1 as [|a l1 IH]; [reflexivity | exact IH]. Qed.

(** Where [select_next] puts the cursor. *)
Lemma select_next_selects (q : string) (st : state) (next : option nat)
  (m : nat) :
  next_after (match_positions st) (current_pos_of (cursor st)) 0 = next ->
  nth_error (match_positions st) (match next with Some i => i | None => 0 end)
    = Some m ->
  m + String.length q <= String.length (plain_text st) ->
  cursor (select_next q st)
    = {| anchor := m; position := m + String.length q |}
  /\ current_match_index (select_next q st)
     = match next with Some i => i + 1 | None => 1 end.
Proof.
  intros Hn Hm Hb. destruct st as [fe fl cmi tm stx mp pt c sm].
  unfold select_next. simpl in *. rewrite Hn.
  assert (E : nth_error
                (match_positions
                   match next with
                   | Some i => set_current (i + 1)
                       {| find_edit := fe; find_label := fl;
                          current_match_index := cmi; total_matches := tm;
                          search_text := stx; match_positions := mp;
                          plain_text := pt; cursor := c;
                          status_message := sm |}
                   | None => set_current 1
                       {| find_edit := fe; find_label := fl;
                          current_match_index := cmi; total_matches := tm;
                          search_text := stx; match_positions := mp;
                          plain_text := pt; cursor := c;
                          status_message := sm |}
                   end)
                match next with Some i => i | None => 0 end = Some m).
  { destruct next; exact Hm. }
  rewrite E. unfold setPosition.
  assert (P : plain_text
                match next with
                | Some i => set_current (i + 1)
                    {| find_edit := fe; find_label := fl;
                       current_match_index := cmi; total_matches := tm;
                       search_text := stx; match_positions := mp;
                       plain_text := pt; cursor := c;
                       status_message := sm |}
                | None => set_current 1
                    {| find_edit := fe; find_label := fl;
                       current_match_index := cmi; total_matches := tm;
                       search_text := stx; match_positions := mp;
                       plain_text := pt; cursor := c;
                       status_message := sm |}
                end = pt).
  { now destruct next. }
  rewrite P.
  replace (String.length pt <? m)%nat with false
    by (symmetry; apply Nat.ltb_ge; lia).
  replace (String.length pt <? m + String.length q)%nat with false
    by (symmetry; apply Nat.ltb_ge; lia).
  simpl. split; [reflexivity | now destruct next].
Qed.

Lemma find_next_counted (st : state) (q : string) :
  find_edit st = q -> search_text st = q -> truthy q = true ->
  match_positions st <> [] ->
  total_matches st = List.length (match_positions st) ->
  find_next st = select_next q st.
Proof.
  intros Hf Hs Hq Hne Ht. unfold find_next, ensure_counted.
  rewrite Hf, Hs, Hq, String.eqb_refl. cbn [negb].
  destruct (match_positions st) as [|m ms] eqn:E; [congruence|].
  rewrite Ht. reflexivity.
Qed.

Lemma find_next_no_match (st : state) (q : string) :
  find_edit st = q -> search_text st = q -> truthy q = true ->
  match_positions st = [] ->
  finditer_starts q (plain_text st) = [] ->
  cursor (find_next st) = cursor st
  /\ total_matches (find_next st) = 0
  /\ find_label (find_next st) = "Find: (0)"
  /\ status_message (find_next st) = "Text not found".
Proof.
  intros Hf Hs Hq Hm Hn. destruct st as [fe fl cmi tm stx mp pt c sm].
  simpl in *. subst fe stx mp.
  unfold find_next, ensure_counted. cbn [find_edit search_text].
  rewrite Hq, String.eqb_refl. cbn [negb match_positions].
  unfold count_matches.
  cbn [set_search_text plain_text search_text find_edit find_label
       current_match_index total_matches match_positions cursor
       status_message].
  rewrite Hq, Hn. destruct (truthy pt); simpl; repeat split; reflexivity.
Qed.

(** C2.  For the document [abcabcabc] and the query [abc] the positions
    are 0, 3 and 6, and [find_next] with the cursor at offset 6 selects
    the match at offset 0.  In every search session (the positions are
    those of the query in the document) [find_next] selects the first
    match whose offset is strictly greater than the cursor offset and
    shows its index counted from 1; when no offset is strictly greater
    it wraps to the first position; when there is no position it reports
    zero matches and leaves the cursor where it is. *)
Theorem find_next_wraps :
  (finditer_starts "abc" "abcabcabc" = [0; 3; 6]
   /\ let st := on_text_changed "abc"
                  (init "abcabcabc" {| anchor := 6; position := 6 |}) in
      match_positions st = [0; 3; 6]
      /\ cursor (find_next st) = {| anchor := 0; position := 3 |}
      /\ current_match_index (find_next st) = 1)
  /\ forall (st : state) (q : string),
       find_edit st = q -> search_text st = q -> truthy q = true ->
       match_positions st = finditer_starts q (plain_text st) ->
       total_matches st = List.length (match_positions st) ->
       (forall l1 m l2,
           match_positions st = l1 ++ m :: l2 ->
           Forall (fun p => p <= current_pos_of (cursor st)) l1 ->
           current_pos_of (cursor st) < m ->
           cursor (find_next st)
             = {| anchor := m; position := m + String.length q |}
           /\ current_match_index (find_next st) = List.length l1 + 1)
       /\ (forall m ms,
           match_positions st = m :: ms ->
           Forall (fun p => p <= current_pos_of (cursor st)) (m :: ms) ->
           cursor (find_next st)
             = {| anchor := m; position := m + String.length q |}
           /\ current_match_index (find_next st) = 1)
       /\ (match_positions st = [] ->
           cursor (find_next st) = cursor st
           /\ total_matches (find_next st) = 0
           /\ find_label (find_next st) = "Find: (0)"
           /\ status_message (find_next st) = "Text not found").
Proof.
  split; [repeat split; reflexivity|].
  intros st q Hf Hs Hq Hm Ht. split; [|split].
  - intros l1 m l2 E Hall Hlt.
    rewrite (find_next_counted st q Hf Hs Hq) by
      (try exact Ht; rewrite E; now destruct l1).
    apply (select_next_selects q st (Some (List.length l1)) m).
    + rewrite E. now apply (next_after_found l1 l2 m _ 0).
    + rewrite E. apply nth_error_middle.
    + apply finditer_starts_bounds. rewrite <- Hm, E.
      apply in_or_app. right. now left.
  - intros m ms E Hall.
    rewrite (find_next_counted st q Hf Hs Hq) by
      (try exact Ht; rewrite E; discriminate).
    apply (select_next_selects q st None m).
    + rewrite E. now apply next_after_none.
    + now rewrite E.
    + apply finditer_starts_bounds. rewrite <- Hm, E. now left.
  - intros E. apply (find_next_no_match st q Hf Hs Hq E). now rewrite <- Hm.
Qed.

Lemma find_next_wraps_witness :
  cursor (find_next
            (on_text_changed "abc"
               (init "xx abc yy ABC" {| anchor := 0; position := 0 |})))
  = {| anchor := 3; position := 6 |}.
Proof.
  exact (proj1 (proj1 (proj2 find_next_wraps
           (on_text_changed "abc"
              (init "xx abc yy ABC" {| anchor := 0; position := 0 |}))
           "abc" eq_refl eq_refl eq_refl eq_refl eq_refl)
         [] 3 [10] eq_refl (Forall_nil _) (Nat.lt_0_succ 2))).
Defined.

End Find.

(** ** The highlighting pass *)

Section Highlighting.

Import Highlighter Spec.

Context `{L : QRegExpLib}.
Variable text_format : Type.

Lemma rule_spans_inside (e : qregexp) (format : text_format) (text : string) :
  match_in_text L ->
  forall (fuel : nat) (index length : Z),
    ((0 <= index)%Z ->
     (0 <= length /\ index + length <= Z.of_nat (String.length text))%Z) ->
    Forall (span_inside text) (rule_spans _ fuel e format text index length).
Proof.
  intros HL. induction fuel as [|f IH]; intros index length Hv; simpl;
    [constructor|].
  destruct (0 <=? index)%Z eqn:E; [|constructor].
  apply Z.leb_le in E. specialize (Hv E).
  destruct (indexIn e text (index + length)%Z) as [index' length'] eqn:Hi.
  constructor.
  - unfold span_inside. simpl. lia.
  - apply IH. intros Hpos. exact (HL _ _ _ _ _ Hi Hpos).
Qed.

(** The calls made within [fuel] iterations are the first calls made
    within more. *)
Lemma rule_spans_prefix (e : qregexp) (format : text_format) (text : string) :
  forall (fuel : nat) (index length : Z),
    exists rest,
      rule_spans _ (S fuel) e format text index length
      = rule_spans _ fuel e format text index length ++ rest.
Proof.
  induction fuel as [|f IH]; intros index length.
  - eexists. reflexivity.
  - change (rule_spans text_format (S (S f)) e format text index length)
      with (if (0 <=? index)%Z then
              let '(index', length') := indexIn e text (index + length)%Z in
              {| span_start := index; span_length := length;
                 span_format := format |}
                :: rule_spans _ (S f) e format text index' length'
            else []).
    change (rule_spans text_format (S f) e format text index length)
      with (if (0 <=? index)%Z then
              let '(index', length') := indexIn e text (index + length)%Z in
              {| span_start := index; span_length := length;
                 span_format := format |}
                :: rule_spans _ f e format text index' length'
            else []).
    destruct (0 <=? index)%Z; [|now exists []].
    destruct (indexIn e text (index + length)%Z) as [index' length'].
    destruct (IH index' length') as [rest E].
    exists rest. now rewrite E.
Qed.

(** When no match is empty the loop of a rule ends: one iteration more
    than the line has characters after [index] exhausts it, and more
    fuel changes nothing. *)
Lemma rule_spans_finishes (e : qregexp) (format : text_format) (text : string) :
  match_in_text L -> match_advances L ->
  forall (fuel : nat) (index length : Z),
    ((0 <= index)%Z ->
     (0 < length /\ index + length <= Z.of_nat (String.length text))%Z) ->
    ((0 <= index)%Z ->
     (Z.of_nat (String.length text) - index < Z.of_nat fuel)%Z) ->
    forall more,
      rule_spans _ (fuel + more) e format text index length
      = rule_spans _ fuel e format text index length.
Proof.
  intros HL HA. induction fuel as [|f IH]; intros index length Hv Hm more.
  - destruct more as [|m]; [reflexivity|]. simpl.
    destruct (0 <=? index)%Z eqn:E; [|reflexivity].
    apply Z.leb_le in E. specialize (Hv E). specialize (Hm E). lia.
  - simpl. destruct (0 <=? index)%Z eqn:E; [|reflexivity].
    apply Z.leb_le in E. specialize (Hv E). specialize (Hm E).
    destruct (indexIn e text (index + length)%Z) as [index' length'] eqn:Hi.
    f_equal. apply IH.
    + intros Hpos. pose proof (HL _ _ _ _ _ Hi Hpos).
      pose proof (HA _ _ _ _ _ Hi Hpos). lia.
    + intros Hpos. pose proof (HA _ _ _ _ _ Hi Hpos). lia.
Qed.

(** X22.  The pass comes to an end: with a [QRegExp] that reports
    matches inside the text, at or after the offset it was given and
    never empty, the loop of each rule is over within one iteration more
    than the line has characters, and following it longer sets no
    further span. *)
Lemma highlightBlock_finishes (rules : list (qregexp * text_format))
  (text : string) (more : nat) :
  match_in_text L -> match_advances L ->
  highlightBlock _ (S (String.length text) + more) rules text
  = highlightBlock _ (S (String.length text)) rules text.
Proof.
  intros HL HA. induction rules as [|[pattern format] rest IH];
    [reflexivity|].
  cbn [highlightBlock].
  destruct (indexIn pattern text 0%Z) as [index length] eqn:Hi.
  rewrite IH. f_equal.
  apply rule_spans_finishes; [exact HL | exact HA | |].
  - intros Hpos. pose proof (HL _ _ _ _ _ Hi Hpos).
    pose proof (HA _ _ _ _ _ Hi Hpos). lia.
  - intros Hpos. lia.
Qed.

(** C9.  Whatever the line and the rules, and however long the pass is
    followed, every span it sets starts at an offset that is not
    negative, has a length that is not negative, and ends inside the
    line ([QRegExp] being relied on to report matches that lie inside
    the text). *)
Theorem highlight_spans_inside_line (fuel : nat)
  (rules : list (qregexp * text_format)) (text : string) :
  match_in_text L ->
  Forall (span_inside text) (highlightBlock _ fuel rules text).
Proof.
  intros HL. induction rules as [|[pattern format] rest IH]; simpl;
    [constructor|].
  destruct (indexIn pattern text 0%Z) as [index length] eqn:Hi.
  apply Forall_app. split; [|exact IH].
  apply rule_spans_inside; [exact HL|].
  intros Hpos. exact (HL _ _ _ _ _ Hi Hpos).
Qed.

End Highlighting.

Lemma any_char_match_in_text : Spec.match_in_text Tiny.any_char.
Proof.
  intros e text offset index length H Hpos. simpl in H.
  destruct ((0 <=? offset) && (offset <? Z.of_nat (String.length text)))%Z
    eqn:E; injection H as <- <-; [|lia].
  apply andb_true_iff in E. destruct E as [E1 E2].
  apply Z.leb_le in E1. apply Z.ltb_lt in E2. lia.
Qed.

Lemma highlight_spans_inside_line_witness :
  Forall (Spec.span_inside "ab")
    (@Highlighter.highlightBlock Tiny.any_char nat 5 [(tt, 7)] "ab").
Proof.
  exact (@highlight_spans_inside_line Tiny.any_char nat 5 [(tt, 7)] "ab"
           any_char_match_in_text).
Defined.

(** ** The CSS formatter on one rule with one declaration *)

Section CssScenario.

Import Formatters Spec.

Lemma css_loop_plain (p rest formatted : string) (level : nat) (in_rule : bool) :
  css_plain p = true ->
  css_loop (p +++ rest) formatted level in_rule
  = css_loop rest (formatted +++ p) level in_rule.
Proof.
  revert formatted. induction p as [|c p IH]; intros formatted H.
  - simpl. now rewrite append_nil_r.
  - simpl in H. repeat (apply andb_true_iff in H; destruct H as [H ?]).
    cbn [append css_loop].
    repeat match goal with
           | E : negb (Ascii.eqb c ?x) = true |- _ =>
               apply negb_true_iff in E; rewrite E
           end.
    rewrite IH by assumption. now rewrite append_assoc.
Qed.

Lemma css_plain_no_newline (p : string) :
  css_plain p = true -> contains LF p = false.
Proof.
  induction p as [|c p IH]; [reflexivity|]. simpl. intros H.
  repeat (apply andb_true_iff in H; destruct H as [H ?]).
  match goal with E : negb (Ascii.eqb c LF) = true |- _ =>
    apply negb_true_iff in E; rewrite E end.
  now apply IH.
Qed.

Lemma truthy_app_r (a b : string) : truthy b = true -> truthy (a +++ b) = true.
Proof. now destruct a. Qed.

Lemma format_css_one_rule (sel decl : string) :
  css_plain sel = true -> css_plain decl = true ->
  format_css (sel +++ "{" +++ decl +++ ";}")
  = (Some (join nl [sel +++ " {"; "  " +++ decl +++ ";"; ""; "}"]), None).
Proof.
  intros Hs Hd. unfold format_css.
  assert (Hb : blank (sel +++ "{" +++ decl +++ ";}") = false).
  { rewrite blank_app. apply andb_false_r. }
  rewrite truthy_strip, Hb. cbn [negb].
  assert (E : css_loop (sel +++ "{" +++ decl +++ ";}") "" 0 false
              = (sel +++ " {") +++ String LF
                  (("  " +++ decl +++ ";") +++ String LF
                     ("  " +++ String LF "}"))).
  { rewrite (css_loop_plain sel) by exact Hs.
    cbn [append css_loop Ascii.eqb Bool.eqb].
    rewrite (css_loop_plain decl) by exact Hd.
    cbn [append css_loop Ascii.eqb Bool.eqb Nat.add Nat.mul Nat.sub Nat.max
         spaces].
    unfold nl. rewrite !append_assoc. reflexivity. }
  rewrite E.
  assert (N1 : contains LF (sel +++ " {") = false).
  { rewrite contains_app, (css_plain_no_newline _ Hs). reflexivity. }
  assert (N2 : contains LF ("  " +++ decl +++ ";") = false).
  { change ("  " +++ decl +++ ";") with ("  " +++ (decl +++ ";")).
    rewrite !contains_app, (css_plain_no_newline _ Hd). reflexivity. }
  rewrite (split_app_no_sep _ _ _ N1), (split_app_no_sep _ _ _ N2).
  change (split LF ("  " +++ String LF "}")) with ["  "; "}"].
  assert (R1 : rstrip (sel +++ " {") = sel +++ " {")
    by (now rewrite rstrip_app_not_blank).
  assert (R2 : rstrip ("  " +++ decl +++ ";") = "  " +++ decl +++ ";").
  { change ("  " +++ decl +++ ";") with ("  " +++ (decl +++ ";")).
    rewrite <- append_assoc. now rewrite rstrip_app_not_blank. }
  assert (B2 : blank ("  " +++ decl +++ ";") = false).
  { change ("  " +++ decl +++ ";") with ("  " +++ (decl +++ ";")).
    rewrite !blank_app. simpl. now rewrite andb_false_r. }
  cbn [css_clean]. rewrite R1, (truthy_app_r sel " {" eq_refl).
  cbn [orb app]. rewrite R2.
  change (truthy ("  " +++ decl +++ ";")) with true.
  cbn [orb app].
  change (rstrip "  ") with "". cbn [truthy orb last].
  rewrite truthy_strip, B2. reflexivity.
Qed.

(** C4, as the code has it.  [a{color:red;}] is formatted to four lines:
    [a {], then [  color:red;] (indented, no space put after the colon),
    then an empty line, then [}] at the base indentation.  So is every
    rule with one declaration, the selector and the declaration being
    copied as they are: [{] ends the selector line after a space and
    opens the indented block, [;] ends the declaration line and writes
    the indentation of a line that stays empty, [}] closes on a line of
    its own at the base indentation. *)
Theorem format_css_scenario :
  format_css "a{color:red;}"
  = (Some (join nl ["a {"; "  color:red;"; ""; "}"]), None)
  /\ forall sel decl,
       css_plain sel = true -> css_plain decl = true ->
       format_css (sel +++ "{" +++ decl +++ ";}")
       = (Some (join nl [sel +++ " {"; "  " +++ decl +++ ";"; ""; "}"]), None).
Proof.
  split.
  - exact (format_css_one_rule "a" "color:red" eq_refl eq_refl).
  - exact format_css_one_rule.
Qed.

Lemma format_css_scenario_witness :
  format_css "h1{margin:0;}"
  = (Some (join nl ["h1 {"; "  margin:0;"; ""; "}"]), None).
Proof.
  exact (proj2 format_css_scenario "h1" "margin:0" eq_refl eq_refl).
Defined.

(** C4 as the specification words it does not hold: the output is not
    the three lines [a {], [  color: red;] and [}]. *)
Lemma format_css_scenario_not_three_lines :
  format_css "a{color:red;}"
  <> (Some (join nl ["a {"; "  color: red;"; "}"]), None).
Proof. vm_compute. discriminate. Qed.

End CssScenario.

(** ** More on the formatters: what they keep *)

Section FormatterShapes.

Import Formatters Spec Shape.

Lemma squeeze_app (a b : string) : squeeze (a +++ b) = squeeze a +++ squeeze b.
Proof.
  induction a as [|c r IH]; [reflexivity|].
  simpl. destruct (isspace c); simpl; now rewrite IH.
Qed.

Lemma squeeze_spaces (n : nat) : squeeze (spaces n) = "".
Proof. induction n as [|k IH]; [reflexivity | exact IH]. Qed.

Lemma squeeze_empty_iff (s : string) : squeeze s = "" <-> blank s = true.
Proof.
  induction s as [|c r IH]; simpl; [tauto|].
  destruct (isspace c); simpl; [exact IH | split; discriminate].
Qed.

Lemma squeeze_rstrip (s : string) : squeeze (rstrip s) = squeeze s.
Proof.
  induction s as [|c r IH]; [reflexivity|].
  simpl. destruct (rstrip r) as [|d r'] eqn:E.
  - simpl in IH. rewrite <- IH. destruct (isspace c) eqn:F; simpl;
      now rewrite ?F.
  - change (squeeze (String c (String d r')))
      with (if isspace c then squeeze (String d r')
            else String c (squeeze (String d r'))).
    now rewrite IH.
Qed.

Lemma squeeze_join_cons (l : string) (ls : list string) :
  squeeze (join nl (l :: ls)) = squeeze l +++ squeeze (join nl ls).
Proof.
  destruct ls as [|l2 ls].
  - simpl. now rewrite append_nil_r.
  - change (join nl (l :: l2 :: ls)) with (l +++ nl +++ join nl (l2 :: ls)).
    now rewrite !squeeze_app.
Qed.

Lemma squeeze_join_app (a b : list string) :
  squeeze (join nl (a ++ b)) = squeeze (join nl a) +++ squeeze (join nl b).
Proof.
  induction a as [|l a IH]; [reflexivity|].
  change ((l :: a) ++ b) with (l :: (a ++ b)).
  now rewrite !squeeze_join_cons, IH, append_assoc.
Qed.

Lemma css_loop_squeeze (content formatted : string) (level : nat)
  (in_rule : bool) :
  squeeze (css_loop content formatted level in_rule)
  = squeeze formatted +++ squeeze content.
Proof.
  revert formatted level in_rule.
  induction content as [|c rest IH]; intros formatted level in_rule.
  - simpl. now rewrite append_nil_r.
  - cbn [css_loop].
    destruct (Ascii.eqb c "{") eqn:E1;
      [apply Ascii.eqb_eq in E1; subst c|
       destruct (Ascii.eqb c "}") eqn:E2;
       [apply Ascii.eqb_eq in E2; subst c|
        destruct (Ascii.eqb c ";") eqn:E3;
        [apply Ascii.eqb_eq in E3; subst c; destruct in_rule|
         destruct (Ascii.eqb c LF) eqn:E4;
         [apply Ascii.eqb_eq in E4; subst c;
          destruct (last_char formatted) as [d|];
          [destruct (negb (Ascii.eqb d LF))|]|]]]];
      rewrite IH, ?squeeze_app, ?squeeze_spaces, ?append_assoc;
      try (simpl; rewrite ?append_assoc, ?append_nil_r; reflexivity).
    change (String c rest) with (String c "" +++ rest).
    now rewrite squeeze_app.
Qed.

Lemma css_clean_squeeze (lines acc : list string) :
  squeeze (join nl (css_clean lines acc))
  = squeeze (join nl acc) +++ squeeze (join nl lines).
Proof.
  revert acc. induction lines as [|line rest IH]; intros acc.
  - simpl. now rewrite append_nil_r.
  - cbn [css_clean]. rewrite squeeze_join_cons.
    destruct (truthy (rstrip line)
              || match acc with
                 | [] => false
                 | _ :: _ => truthy (strip (last acc ""))
                 end) eqn:K.
    + rewrite IH, squeeze_join_app, append_assoc. f_equal.
      change (join nl [rstrip line]) with (rstrip line).
      now rewrite squeeze_rstrip.
    + apply orb_false_iff in K. destruct K as [K _].
      apply truthy_false_iff in K.
      rewrite IH, <- (squeeze_rstrip line), K. reflexivity.
Qed.

Lemma format_css_text (content t : string) :
  format_css content = (Some t, None) ->
  blank content = false
  /\ t = join nl (css_clean (split LF (css_loop content "" 0 false)) []).
Proof.
  unfold format_css. rewrite truthy_strip.
  destruct (blank content); simpl; [discriminate|].
  intros [= <-]. split; reflexivity.
Qed.

Lemma format_css_squeeze (content t : string) :
  format_css content = (Some t, None) -> squeeze t = squeeze content.
Proof.
  intros H. apply format_css_text in H. destruct H as [_ ->].
  rewrite css_clean_squeeze. change (squeeze (join nl [])) with "".
  cbn [append]. unfold nl. rewrite join_split.
  now rewrite css_loop_squeeze.
Qed.

(** X1.  The CSS formatter changes white space only: the formatted text
    and the input are the same once all white space is taken out. *)
Theorem format_css_changes_white_space_only (content t : string) :
  format_css content = (Some t, None) -> squeeze t = squeeze content.
Proof. exact (format_css_squeeze content t). Qed.

Lemma format_css_changes_white_space_only_witness :
  squeeze ("a {" +++ nl +++ "  color:red;" +++ nl +++ nl +++ "}")
  = squeeze "a{color:red;}".
Proof.
  exact (format_css_changes_white_space_only "a{color:red;}" _ eq_refl).
Defined.

Lemma rstrip_idem (s : string) : rstrip (rstrip s) = rstrip s.
Proof.
  induction s as [|c r IH]; [reflexivity|].
  simpl. destruct (rstrip r) as [|d r'] eqn:E.
  - destruct (isspace c) eqn:F; [reflexivity|]. simpl. now rewrite F.
  - change (rstrip (String c (String d r')))
      with (match rstrip (String d r') with
            | "" => if isspace c then "" else String c ""
            | r2 => String c r2
            end).
    now rewrite IH.
Qed.

Lemma contains_rstrip (c : ascii) (s : string) :
  contains c s = false -> contains c (rstrip s) = false.
Proof.
  induction s as [|x r IH]; [reflexivity|]. simpl. intros H.
  apply orb_false_iff in H. destruct H as [H1 H2]. specialize (IH H2).
  destruct (rstrip r) as [|d r'].
  - destruct (isspace x); simpl; now rewrite ?H1.
  - change (contains c (String x (String d r')))
      with (Ascii.eqb x c || contains c (String d r')).
    now rewrite H1, IH.
Qed.

Lemma no_double_blank_snoc (acc : list string) (x : string) :
  no_double_blank acc ->
  (acc = [] \/ last acc "" <> "" \/ x <> "") ->
  no_double_blank (acc ++ [x]).
Proof.
  induction acc as [|a acc IH]; intros H K; [exact I|].
  destruct acc as [|b acc].
  - simpl. split; [|exact I].
    destruct K as [K | [K | K]]; [discriminate | now left | now right].
  - destruct H as [H1 H2].
    change (no_double_blank (a :: (b :: acc) ++ [x])).
    cbn [no_double_blank app]. split; [exact H1|].
    apply IH; [exact H2|].
    destruct K as [K | [K | K]]; [discriminate | right; left; exact K
                                  | right; right; exact K].
Qed.

(** What the clean-up pass of the CSS formatter keeps true of the lines
    it has collected. *)
Lemma css_clean_tidy (lines acc : list string) :
  Forall (fun l => contains LF l = false) lines ->
  Forall (fun l => rstrip l = l /\ contains LF l = false) acc ->
  hd "x" acc <> "" ->
  no_double_blank acc ->
  Forall (fun l => rstrip l = l /\ contains LF l = false) (css_clean lines acc)
  /\ hd "x" (css_clean lines acc) <> ""
  /\ no_double_blank (css_clean lines acc).
Proof.
  revert acc. induction lines as [|line rest IH]; intros acc Hl Ha Hh Hn;
    [now repeat split|].
  inversion Hl as [|? ? Hl1 Hl2]; subst. cbn [css_clean].
  destruct (truthy (rstrip line)
            || match acc with
               | [] => false
               | _ :: _ => truthy (strip (last acc ""))
               end) eqn:K; [|now apply IH].
  apply IH; [exact Hl2 | | |].
  - apply Forall_app. split; [exact Ha|]. constructor; [|constructor].
    split; [apply rstrip_idem | now apply contains_rstrip].
  - destruct acc as [|a acc]; [|exact Hh]. simpl in K |- *.
    rewrite orb_false_r in K. intros E. rewrite E in K. discriminate.
  - apply no_double_blank_snoc; [exact Hn|].
    apply orb_true_iff in K. destruct K as [K | K].
    + right. right. intros E. rewrite E in K. discriminate.
    + destruct acc as [|a acc]; [discriminate|].
      right. left. intros E. rewrite E in K. discriminate.
Qed.

(** X2.  The text the CSS formatter returns is tidy: no line ends in
    white space, the first line is not empty, and no two empty lines
    follow each other. *)
Theorem format_css_tidy (content t : string) :
  format_css content = (Some t, None) ->
  Forall (fun l => rstrip l = l) (split LF t)
  /\ hd "" (split LF t) <> ""
  /\ no_double_blank (split LF t).
Proof.
  intros H. pose proof (format_css_squeeze _ _ H) as Hs.
  apply format_css_text in H. destruct H as [Hb Ht].
  destruct (css_clean_tidy (split LF (css_loop content "" 0 false)) [])
    as [H1 [H2 H3]];
    [apply split_no_sep | constructor | discriminate | exact I |].
  set (ls := css_clean (split LF (css_loop content "" 0 false)) []) in *.
  assert (Hne : ls <> []).
  { intros E. rewrite Ht, E in Hs. simpl in Hs. symmetry in Hs.
    apply squeeze_empty_iff in Hs. congruence. }
  assert (E : split LF t = ls).
  { rewrite Ht. apply split_join; [exact Hne|].
    eapply Forall_impl; [|exact H1]. now intros l [_ Hc]. }
  rewrite E. repeat split.
  - eapply Forall_impl; [|exact H1]. now intros l [Hr _].
  - destruct ls as [|l ls']; [congruence | exact H2].
  - exact H3.
Qed.

Lemma format_css_tidy_witness :
  Forall (fun l => rstrip l = l) ["a   {"; ""; "}"]
  /\ hd "" ["a   {"; ""; "}"] <> ""
  /\ no_double_blank ["a   {"; ""; "}"].
Proof. exact (format_css_tidy ("a  {  }" +++ nl) _ eq_refl). Defined.

Lemma python_line_indented (level level' : nat) (line out : string) :
  python_line level line out level' -> indented_by 4 out.
Proof.
  intros [H | l1 l2 H _ _]; [now left|].
  right. exists l1, (lstrip line). repeat split; [exact H | apply lstrip_idem].
Qed.

Lemma python_run_indented (level level' : nat) (lines outs : list string) :
  python_run level lines outs level' -> Forall (indented_by 4) outs.
Proof.
  induction 1; constructor; eauto using python_line_indented.
Qed.

Lemma javascript_loop_indented (size : nat) (lines : list string) (level : nat) :
  Forall (indented_by size) (fst (javascript_loop size lines [] level)).
Proof.
  revert level.
  induction lines as [|line rest IH]; intros level; simpl; [constructor|].
  destruct (truthy (lstrip line)) eqn:E; simpl;
    rewrite javascript_loop_acc; simpl; constructor; try apply IH.
  - right. eexists _, (lstrip line). repeat split; [|apply lstrip_idem].
    intros Hs. rewrite Hs in E. discriminate.
  - now left.
Qed.

(** X3.  Every line the Python-like formatter returns is empty or starts
    with a whole number of four-space units followed by a character that
    is not white space; for the JS-like formatter the unit is two
    spaces.  Tabs and odd indentation of the input do not survive. *)
Theorem normalisers_indent_by_units (content t : string) :
  (format_python content = (Some t, None) ->
   Forall (indented_by 4) (split LF t))
  /\ (format_javascript content = (Some t, None) ->
      Forall (indented_by 2) (split LF t)).
Proof.
  split; intros H; destruct (blank content) eqn:Hb.
  - rewrite (format_python_blank _ Hb) in H. discriminate.
  - rewrite (format_python_lines _ Hb) in H. injection H as <-.
    rewrite (reindent_split _ python_reindents).
    eapply python_run_indented, python_loop_run.
  - rewrite (format_javascript_blank _ Hb) in H. discriminate.
  - rewrite (format_javascript_lines _ Hb) in H. injection H as <-.
    rewrite (reindent_split _ javascript_reindents).
    apply javascript_loop_indented.
Qed.

Lemma normalisers_indent_by_units_witness :
  Forall (indented_by 4) ["if x:"; "    y"].
Proof.
  exact (proj1 (normalisers_indent_by_units
                  ("if x:" +++ nl +++ String TAB "y") _) eq_refl).
Defined.

End FormatterShapes.

(** ** More on the XML formatter *)

Section XmlLines.

Import Formatters Spec.

Lemma startswith_truthy (s p : string) :
  startswith s p = true -> truthy p = true -> truthy s = true.
Proof.
  unfold startswith. destruct p as [|a p]; [discriminate|].
  now destruct s.
Qed.

Lemma spaced_filter (prev : option string) (lines out : list string) :
  spaced prev lines out -> filter truthy out = filter truthy lines.
Proof.
  induction 1 as [ | prev line Hd | prev line next rest out Hd _ IH
                   | line rest out _ _ IH | prev line rest out _ _ _ IH
                   | prev line rest out _ _ _ IH ];
    try reflexivity.
  - cbn [filter]. rewrite (startswith_truthy _ _ Hd eq_refl).
    cbn [truthy]. f_equal. exact IH.
  - cbn [filter]. now rewrite IH.
  - cbn [filter truthy]. now rewrite IH.
  - cbn [filter]. now rewrite IH.
Qed.

Lemma filter_all (f : string -> bool) (l : list string) :
  Forall (fun x => f x = true) l -> filter f l = l.
Proof.
  induction 1 as [|x l Hx _ IH]; [reflexivity|].
  simpl. now rewrite Hx, IH.
Qed.

Lemma clean_lines_cons (line : string) (lines : list string) :
  clean_lines (line :: lines) []
  = if truthy (rstrip line) then rstrip line :: clean_lines lines []
    else clean_lines lines [].
Proof.
  simpl. destruct (truthy (rstrip line)); [|reflexivity].
  now rewrite clean_lines_acc.
Qed.

Lemma clean_lines_clean (lines : list string) :
  Forall (fun l => truthy l = true /\ rstrip l = l) (clean_lines lines []).
Proof.
  induction lines as [|line rest IH]; [constructor|].
  rewrite clean_lines_cons.
  destruct (truthy (rstrip line)) eqn:E; [|exact IH].
  constructor; [|exact IH]. split; [exact E | apply rstrip_idem].
Qed.

(** X4.  The second pass of the XML formatter only puts empty lines in:
    with the empty lines taken out again, its result is the list of
    lines it was given.  The lines it is given by the first pass are the
    lines of the pretty-printed text, right-trimmed, without the empty
    ones. *)
Theorem xml_pass_adds_empty_lines_only (lines : list string) :
  filter truthy (xml_spacing lines) = filter truthy lines
  /\ Forall (fun l => truthy l = true /\ rstrip l = l) (clean_lines lines [])
  /\ filter truthy (xml_spacing (clean_lines lines [])) = clean_lines lines [].
Proof.
  assert (H : forall ls, filter truthy (xml_spacing ls) = filter truthy ls)
    by (intros ls; apply (spaced_filter None), xml_spacing_spaced).
  split; [apply H|]. split; [apply clean_lines_clean|].
  rewrite H. apply filter_all.
  eapply Forall_impl; [|apply clean_lines_clean]. now intros l [Ht _].
Qed.

(** X5.  Putting the original declaration back changes the first line of
    the formatted text and no other. *)
Theorem preserve_declaration_first_line_only (content formatted : string) :
  tl (split LF (preserve_declaration content formatted))
  = tl (split LF formatted).
Proof.
  unfold preserve_declaration.
  destruct (startswith (strip content) "<?xml"); [|reflexivity].
  destruct (startswith formatted "<?xml"); [|reflexivity].
  pose proof (split_not_nil LF formatted) as Hne.
  pose proof (split_no_sep LF formatted) as Hall.
  destruct (split LF formatted) as [|h rest]; [congruence|].
  cbn [set_first tl]. unfold nl. rewrite split_join; [reflexivity | discriminate |].
  inversion Hall; subst. constructor; [|assumption].
  pose proof (split_no_sep LF (strip content)) as Hc.
  destruct (split LF (strip content)) as [|a b]; [reflexivity|].
  now inversion Hc.
Qed.

End XmlLines.

(** ** More on [auto_format] *)

Section AutoFormat.

Import Formatters Utils Editor.

Context `{X : XmlLib} `{J : JsonLib}.

Lemma apply_formatting_cases (content : string) (r : result) :
  apply_formatting content r = content
  \/ (fst r = Some (apply_formatting content r)
      /\ truthy (apply_formatting content r) = true).
Proof.
  unfold apply_formatting. destruct (fst r) as [t|]; [|now left].
  destruct (truthy t) eqn:E; [right; now split | now left].
Qed.

Lemma auto_format_cases (current_file : option string) (content : string) :
  auto_format current_file content = content
  \/ (truthy (auto_format current_file content) = true
      /\ In (Some (auto_format current_file content))
           [fst (format_xml content); fst (format_json content);
            fst (format_python content); fst (format_css content);
            fst (format_javascript content)]).
Proof.
  unfold auto_format.
  destruct (negb (truthy (strip content))); [now left|].
  match goal with
  | |- context [String.eqb ?l "xml"] => generalize l; intros lang
  end.
  destruct (String.eqb lang "xml" || String.eqb lang "html").
  { destruct (apply_formatting_cases content (format_xml content))
      as [E | [E T]]; [now left | right; split; [exact T | left; now rewrite E]]. }
  destruct (String.eqb lang "json").
  { destruct (apply_formatting_cases content (format_json content))
      as [E | [E T]]; [now left|].
    right; split; [exact T | right; left; now rewrite E]. }
  destruct (String.eqb lang "python").
  { destruct (apply_formatting_cases content (format_python content))
      as [E | [E T]]; [now left|].
    right; split; [exact T | do 2 right; left; now rewrite E]. }
  destruct (String.eqb lang "css").
  { destruct (apply_formatting_cases content (format_css content))
      as [E | [E T]]; [now left|].
    right; split; [exact T | do 3 right; left; now rewrite E]. }
  destruct (String.eqb lang "javascript").
  { destruct (apply_formatting_cases content (format_javascript content))
      as [E | [E T]]; [now left|].
    right; split; [exact T | do 4 right; left; now rewrite E]. }
  destruct (contains "<" content && contains ">" content).
  - destruct (fst (format_xml content)) as [t|] eqn:Ex.
    + cbn [truthy_opt]. destruct (truthy t) eqn:Et.
      * right. unfold apply_formatting. cbn [fst]. rewrite Et.
        split; [exact Et | now left].
      * destruct (contains "{" content || contains "[" content);
          [|now left].
        destruct (fst (format_json content)) as [u|] eqn:Ej; [|now left].
        cbn [truthy_opt]. destruct (truthy u) eqn:Eu; [|now left].
        right. unfold apply_formatting. cbn [fst]. rewrite Eu.
        split; [exact Eu | right; now left].
    + cbn [truthy_opt].
      destruct (contains "{" content || contains "[" content); [|now left].
      destruct (fst (format_json content)) as [u|] eqn:Ej; [|now left].
      cbn [truthy_opt]. destruct (truthy u) eqn:Eu; [|now left].
      right. unfold apply_formatting. cbn [fst]. rewrite Eu.
      split; [exact Eu | right; now left].
  - cbn [truthy_opt].
    destruct (contains "{" content || contains "[" content); [|now left].
    destruct (fst (format_json content)) as [u|] eqn:Ej; [|now left].
    cbn [truthy_opt]. destruct (truthy u) eqn:Eu; [|now left].
    right. unfold apply_formatting. cbn [fst]. rewrite Eu.
    split; [exact Eu | right; now left].
Qed.

(** X6.  Whatever the file name and the content, [auto_format] leaves
    the document as it is or replaces it by the text one of the five
    formatters returned for it, and that text is not empty; so a
    document that is not empty never becomes empty. *)
Theorem auto_format_outcome (current_file : option string) (content : string) :
  (auto_format current_file content = content
   \/ (truthy (auto_format current_file content) = true
       /\ In (Some (auto_format current_file content))
            [fst (format_xml content); fst (format_json content);
             fst (format_python content); fst (format_css content);
             fst (format_javascript content)]))
  /\ (truthy content = true ->
      truthy (auto_format current_file content) = true).
Proof.
  split; [apply auto_format_cases|].
  intros Ht. destruct (auto_format_cases current_file content) as [E | [E _]];
    [now rewrite E | exact E].
Qed.




End AutoFormat.


Lemma auto_format_outcome_witness :
  truthy (@Editor.auto_format Tiny.xml Tiny.json None "<a/>") = true.
Proof.
  exact (proj2 (@auto_format_outcome Tiny.xml Tiny.json None "<a/>") eq_refl).
Defined.

(** ** More on language detection *)

Section DetectionMore.

Import Utils Re.







(** A pattern that starts with an impossible character matches
    nothing. *)
Lemma match_length_null (r : regex) (s : string) :
  match_length (Cat Null r) s = None.
Proof.
  induction s as [|c rest IH]; [reflexivity|].
  simpl. simpl in IH. now rewrite IH.
Qed.

Lemma match_length_first (c : ascii) (r : regex) (s : string) :
  startswith s (String c "") = false ->
  match_length (Cat (Chr c) r) s = None.
Proof.
  unfold startswith. destruct s as [|d rest]; [reflexivity|].
  simpl. destruct (ascii_dec c d) as [->|N].
  - now destruct rest.
  - intros _. replace (Ascii.eqb c d) with false
      by (symmetry; now apply Ascii.eqb_neq).
    now rewrite match_length_null.
Qed.

Lemma search_first (c : ascii) (r : regex) (s : string) :
  contains c s = false -> search (Cat (Chr c) r) s = false.
Proof.
  induction s as [|d rest IH]; intros H.
  - reflexivity.
  - simpl in H. apply orb_false_iff in H. destruct H as [H1 H2].
    cbn [search]. rewrite match_length_first.
    + now apply IH.
    + unfold startswith. simpl.
      destruct (ascii_dec c d) as [->|]; [|reflexivity].
      now rewrite Ascii.eqb_refl in H1.
Qed.

Lemma contains_strip (c : ascii) (s : string) :
  contains c s = false -> contains c (strip s) = false.
Proof.
  intros H. unfold strip. now apply contains_rstrip, contains_lstrip.
Qed.

Lemma startswith_contains (c : ascii) (p s : string) :
  startswith s (String c p) = true -> contains c s = true.
Proof.
  unfold startswith. destruct s as [|d rest]; [discriminate|].
  simpl. destruct (ascii_dec c d) as [->|]; [|discriminate].
  now rewrite Ascii.eqb_refl.
Qed.

Lemma detect_content_range (content : string) :
  detect_file_type_from_content content = None
  \/ detect_file_type_from_content content = Some "xml"
  \/ detect_file_type_from_content content = Some "json".
Proof.
  unfold detect_file_type_from_content.
  repeat match goal with
         | |- context [if ?b then _ else _] => destruct b
         end; auto.
Qed.

(** X9.  Detection from the content answers nothing, [xml] or [json],
    never another language.  A blank content gives nothing; a content
    that starts, once trimmed, with [<?xml] gives [xml]; a content that
    looks like XML gives [xml] even when it is valid JSON; a content
    without any [<] never gives [xml]; and [json] is only answered for a
    content that starts, once trimmed, with a brace or a bracket. *)
Theorem detect_content_cases (content : string) :
  (detect_file_type_from_content content = None
   \/ detect_file_type_from_content content = Some "xml"
   \/ detect_file_type_from_content content = Some "json")
  /\ (blank content = true -> detect_file_type_from_content content = None)
  /\ (blank content = false ->
      startswith (strip content) "<?xml" = true
      \/ looks_like_xml content = true ->
      detect_file_type_from_content content = Some "xml")
  /\ (contains "<" content = false ->
      detect_file_type_from_content content <> Some "xml")
  /\ (detect_file_type_from_content content = Some "json" ->
      startswith (strip content) "{" = true
      \/ startswith (strip content) "[" = true).
Proof.
  split; [apply detect_content_range|]. split; [|split; [|split]].
  - intros Hb. unfold detect_file_type_from_content.
    rewrite truthy_strip, Hb. now rewrite orb_true_r.
  - intros Hb H. unfold detect_file_type_from_content.
    rewrite truthy_strip, Hb.
    assert (Ht : truthy content = true) by (now destruct content).
    rewrite Ht. cbn [negb orb].
    destruct (startswith (strip content) "<?xml"); [reflexivity|].
    destruct H as [H|H]; [discriminate | now rewrite H].
  - intros Hc. unfold detect_file_type_from_content.
    destruct (negb (truthy content) || negb (truthy (strip content)));
      [discriminate|].
    destruct (startswith (strip content) "<?xml") eqn:E.
    { apply startswith_contains in E.
      now rewrite (contains_strip _ _ Hc) in E. }
    unfold looks_like_xml, tag_re. rewrite (search_first _ _ _ Hc).
    repeat match goal with
           | |- context [if ?b then _ else _] => destruct b
           end; discriminate.
  - unfold detect_file_type_from_content.
    destruct (negb (truthy content) || negb (truthy (strip content)));
      [discriminate|].
    destruct (startswith (strip content) "<?xml"); [discriminate|].
    destruct (looks_like_xml content); [discriminate|].
    destruct (startswith (strip content) "{"); [now left|].
    destruct (startswith (strip content) "["); [now right|].
    discriminate.
Qed.

Lemma detect_content_cases_witness :
  detect_file_type_from_content Small.json_with_tags = Some "xml"
  /\ Json.loads_ok Small.json_with_tags = true.
Proof.
  split; [|reflexivity].
  exact (proj1 (proj2 (proj2 (detect_content_cases Small.json_with_tags)))
           eq_refl (or_intror eq_refl)).
Defined.

End DetectionMore.

(** ** Opening a file *)

Section OpeningFacts.

Import Utils Opening.

Lemma length_app (a b : string) :
  String.length (a +++ b) = String.length a + String.length b.
Proof. induction a as [|c a IH]; simpl; congruence. Qed.

Lemma substring_prefix (p t : string) :
  String.substring 0 (String.length p) (p +++ t) = p.
Proof. induction p as [|c p IH]; simpl; [now destruct t | congruence]. Qed.

Lemma sample_of_long (p t : string) :
  len p = 10000%Z -> t <> "" -> sample_of (p +++ t) = p.
Proof.
  intros Hp Ht. unfold sample_of, len in *. rewrite length_app.
  assert (0 < String.length t) by (destruct t; [congruence | simpl; lia]).
  replace (10000 <? Z.of_nat (String.length p + String.length t))%Z with true
    by (symmetry; apply Z.ltb_lt; lia).
  unfold take. rewrite <- Hp, Nat2Z.id. apply substring_prefix.
Qed.



(** X10.  The language shown when a file is opened is read from the name
    and, for a name without a known extension, from the first 10000
    characters of the content: what comes after them changes nothing. *)
Theorem opened_language_from_sample (filepath p t1 t2 : string) :
  len p = 10000%Z -> t1 <> "" -> t2 <> "" ->
  shown_language (open_file_from_path filepath (p +++ t1))
  = shown_language (open_file_from_path filepath (p +++ t2)).
Proof.
  intros Hp H1 H2. unfold open_file_from_path.
  rewrite (sample_of_long p t1 Hp H1), (sample_of_long p t2 Hp H2).
  destruct (len (p +++ t1) <? 500000)%Z, (len (p +++ t2) <? 500000)%Z;
    reflexivity.
Qed.

Lemma opened_language_from_sample_witness :
  len (spaces (Z.to_nat 10000)) = 10000%Z
  /\ shown_language
       (open_file_from_path "notes" (spaces (Z.to_nat 10000) +++ "<a></a>"))
     = shown_language
         (open_file_from_path "notes" (spaces (Z.to_nat 10000) +++ "{}")).
Proof.
  split; [vm_compute; reflexivity|].
  apply (opened_language_from_sample "notes" (spaces (Z.to_nat 10000))
           "<a></a>" "{}");
    [vm_compute; reflexivity | discriminate | discriminate].
Defined.



End OpeningFacts.

(** ** More on the highlighting pass *)

Section HighlightingMore.

Import Highlighter Spec Painting.

Context `{L : QRegExpLib}.
Variable text_format : Type.

Lemma rule_spans_from (e : qregexp) (format : text_format) (text : string) :
  match_advances L ->
  forall (fuel : nat) (index length : Z),
    ((0 <= index)%Z -> (0 < length)%Z) ->
    Forall (fun sp => (index <= span_start _ sp /\ 0 < span_length _ sp)%Z)
      (rule_spans _ fuel e format text index length).
Proof.
  intros HA. induction fuel as [|f IH]; intros index length Hv; simpl;
    [constructor|].
  destruct (0 <=? index)%Z eqn:E; [|constructor].
  apply Z.leb_le in E. specialize (Hv E).
  destruct (indexIn e text (index + length)%Z) as [index' length'] eqn:Hi.
  constructor; [simpl; lia|].
  assert (Hn : (0 <= index')%Z -> (0 < length')%Z)
    by (intros Hp; apply (HA _ _ _ _ _ Hi Hp)).
  specialize (IH index' length' Hn).
  destruct f as [|f']; [constructor|].
  destruct (Z.le_gt_cases 0 index') as [Hp|Hp].
  - eapply Forall_impl; [|exact IH]. intros sp [H1 H2].
    pose proof (HA _ _ _ _ _ Hi Hp). lia.
  - simpl. replace (0 <=? index')%Z with false
      by (symmetry; apply Z.leb_gt; lia). constructor.
Qed.

Lemma rule_spans_disjoint (e : qregexp) (format : text_format) (text : string) :
  match_advances L ->
  forall (fuel : nat) (index length : Z),
    ((0 <= index)%Z -> (0 < length)%Z) ->
    StronglySorted
      (fun a b => (span_start _ a + span_length _ a <= span_start _ b)%Z)
      (rule_spans _ fuel e format text index length).
Proof.
  intros HA. induction fuel as [|f IH]; intros index length Hv; simpl;
    [constructor|].
  destruct (0 <=? index)%Z eqn:E; [|constructor].
  apply Z.leb_le in E. specialize (Hv E).
  destruct (indexIn e text (index + length)%Z) as [index' length'] eqn:Hi.
  assert (Hn : (0 <= index')%Z -> (0 < length')%Z)
    by (intros Hp; apply (HA _ _ _ _ _ Hi Hp)).
  constructor; [now apply IH|].
  pose proof (rule_spans_from e format text HA f index' length' Hn) as HF.
  destruct f as [|f']; [constructor|].
  destruct (Z.le_gt_cases 0 index') as [Hp|Hp].
  - eapply Forall_impl; [|exact HF]. intros sp [H1 H2]. simpl.
    pose proof (HA _ _ _ _ _ Hi Hp). lia.
  - simpl. replace (0 <=? index')%Z with false
      by (symmetry; apply Z.leb_gt; lia). constructor.
Qed.

(** X12.  The spans of one rule come from left to right and do not
    overlap: each starts where the one before ended or later, and none
    is empty, provided [QRegExp] reports matches at or after the offset
    it was given and no empty match.  The same position is never matched
    twice by the same rule. *)
Theorem rule_spans_left_to_right (fuel : nat) (pattern : qregexp)
  (format : text_format) (text : string) :
  match_advances L ->
  StronglySorted
    (fun a b => (span_start _ a + span_length _ a <= span_start _ b)%Z)
    (highlightBlock _ fuel [(pattern, format)] text)
  /\ Forall (fun sp => (0 < span_length _ sp)%Z)
       (highlightBlock _ fuel [(pattern, format)] text).
Proof.
  intros HA. cbn [highlightBlock].
  destruct (indexIn pattern text 0%Z) as [index length] eqn:Hi.
  rewrite app_nil_r.
  assert (Hn : (0 <= index)%Z -> (0 < length)%Z)
    by (intros Hp; apply (HA _ _ _ _ _ Hi Hp)).
  split; [now apply rule_spans_disjoint|].
  eapply Forall_impl; [|apply (rule_spans_from _ _ _ HA _ _ _ Hn)].
  now intros sp [_ H].
Qed.

(** X13.  A pattern that matches the empty string stops the pass: when
    [QRegExp] reports an empty match at the very offset it was given,
    the loop of the rule asks again at the same offset, and however many
    iterations are allowed, all of them are used. *)
Theorem empty_match_never_ends (fuel : nat) (pattern : qregexp)
  (format : text_format) (text : string) (index : Z) :
  (0 <= index)%Z ->
  indexIn pattern text index = (index, 0%Z) ->
  List.length (rule_spans _ fuel pattern format text index 0%Z) = fuel.
Proof.
  intros Hp Hi. induction fuel as [|f IH]; [reflexivity|].
  simpl. replace (0 <=? index)%Z with true by (symmetry; now apply Z.leb_le).
  rewrite Z.add_0_r, Hi. simpl. now rewrite IH.
Qed.

Lemma rule_spans_own (e : qregexp) (format : text_format) (text : string) :
  forall (fuel : nat) (index length : Z),
    Forall (fun sp => span_format _ sp = format /\ (0 <= span_start _ sp)%Z)
      (rule_spans _ fuel e format text index length).
Proof.
  induction fuel as [|f IH]; intros index length; simpl; [constructor|].
  destruct (0 <=? index)%Z eqn:E; [|constructor].
  apply Z.leb_le in E.
  destruct (indexIn e text (index + length)%Z) as [index' length'].
  constructor; [now split | apply IH].
Qed.

Lemma highlightBlock_starts (fuel : nat) (rules : list (qregexp * text_format))
  (text : string) :
  Forall (fun sp => (0 <= span_start _ sp)%Z) (highlightBlock _ fuel rules text).
Proof.
  induction rules as [|[pattern format] rest IH]; [constructor|].
  cbn [highlightBlock].
  destruct (indexIn pattern text 0%Z) as [index length].
  apply Forall_app. split; [|exact IH].
  eapply Forall_impl; [|apply rule_spans_own]. now intros sp [_ H].
Qed.

Lemma highlightBlock_app (fuel : nat) (r1 r2 : list (qregexp * text_format))
  (text : string) :
  highlightBlock _ fuel (r1 ++ r2) text
  = highlightBlock _ fuel r1 text ++ highlightBlock _ fuel r2 text.
Proof.
  induction r1 as [|[pattern format] rest IH]; [reflexivity|].
  cbn [highlightBlock app].
  destruct (indexIn pattern text 0%Z) as [index length].
  now rewrite IH, app_assoc.
Qed.

Lemma paint_length (start count : Z) (format : text_format) (i : Z)
  (formats : list (option text_format)) :
  List.length (paint _ start count format i formats) = List.length formats.
Proof.
  revert i. induction formats as [|f rest IH]; intros i; simpl; congruence.
Qed.

Lemma paint_nth (start count : Z) (format : text_format)
  (formats : list (option text_format)) :
  forall (i : Z) (p : nat),
    nth_error (paint _ start count format i formats) p
    = option_map
        (fun f => if ((start <=? i + Z.of_nat p)
                      && (i + Z.of_nat p <? start + count))%Z
                  then Some format else f)
        (nth_error formats p).
Proof.
  induction formats as [|f rest IH]; intros i p.
  - now destruct p.
  - destruct p as [|p].
    + simpl. now rewrite Z.add_0_r.
    + cbn [paint nth_error]. rewrite IH.
      replace (i + 1 + Z.of_nat p)%Z with (i + Z.of_nat (S p))%Z by lia.
      reflexivity.
Qed.

Lemma setFormat_length (sp : span text_format)
  (formats : list (option text_format)) :
  List.length (setFormat _ (span_start _ sp) (span_length _ sp)
                 (span_format _ sp) formats)
  = List.length formats.
Proof.
  unfold setFormat.
  destruct ((span_start _ sp <? 0)
            || (Z.of_nat (List.length formats) <=? span_start _ sp))%Z;
    [reflexivity | apply paint_length].
Qed.

(** What one call changes at the offset [p]. *)
Lemma setFormat_at (sp : span text_format)
  (formats : list (option text_format)) (p : nat) :
  (0 <= span_start _ sp)%Z -> p < List.length formats ->
  (covers _ sp p ->
   nth_error (setFormat _ (span_start _ sp) (span_length _ sp)
                (span_format _ sp) formats) p
   = Some (Some (span_format _ sp)))
  /\ (~ covers _ sp p ->
      nth_error (setFormat _ (span_start _ sp) (span_length _ sp)
                   (span_format _ sp) formats) p
      = nth_error formats p).
Proof.
  intros Hs Hp. unfold setFormat, covers.
  destruct (nth_error formats p) as [f|] eqn:En;
    [|apply nth_error_None in En; lia].
  replace (span_start _ sp <? 0)%Z with false
    by (symmetry; apply Z.ltb_ge; lia).
  cbn [orb].
  destruct (Z.of_nat (List.length formats) <=? span_start _ sp)%Z eqn:E.
  - apply Z.leb_le in E. split; [lia | now rewrite En].
  - rewrite paint_nth, En. cbn [option_map]. rewrite Z.add_0_l. split.
    + intros [H1 H2].
      replace (span_start _ sp <=? Z.of_nat p)%Z with true
        by (symmetry; now apply Z.leb_le).
      replace (Z.of_nat p <? span_start _ sp + span_length _ sp)%Z with true
        by (symmetry; now apply Z.ltb_lt).
      reflexivity.
    + intros Hn.
      destruct (span_start _ sp <=? Z.of_nat p)%Z eqn:E1;
        [|reflexivity].
      destruct (Z.of_nat p <? span_start _ sp + span_length _ sp)%Z eqn:E2;
        [|reflexivity].
      apply Z.leb_le in E1. apply Z.ltb_lt in E2. exfalso. apply Hn. lia.
Qed.

Lemma covers_dec (sp : span text_format) (p : nat) :
  covers _ sp p \/ ~ covers _ sp p.
Proof. unfold covers. lia. Qed.

Lemma fold_setFormat_keeps (spans : list (span text_format)) (p : nat) :
  forall formats,
    p < List.length formats ->
    Forall (fun sp => (0 <= span_start _ sp)%Z) spans ->
    Forall (fun sp => ~ covers _ sp p) spans ->
    nth_error
      (fold_left
         (fun fs sp => setFormat _ (span_start _ sp) (span_length _ sp)
                         (span_format _ sp) fs) spans formats) p
    = nth_error formats p.
Proof.
  induction spans as [|sp rest IH]; intros formats Hp Hs Hc; [reflexivity|].
  inversion Hs; subst. inversion Hc; subst. cbn [fold_left].
  rewrite IH; [| now rewrite setFormat_length | assumption | assumption].
  now apply setFormat_at.
Qed.

Lemma fold_setFormat_wins (format : text_format)
  (spans : list (span text_format)) (p : nat) :
  forall formats,
    p < List.length formats ->
    Forall (fun sp => span_format _ sp = format /\ (0 <= span_start _ sp)%Z)
      spans ->
    nth_error formats p = Some (Some format)
    \/ Exists (fun sp => covers _ sp p) spans ->
    nth_error
      (fold_left
         (fun fs sp => setFormat _ (span_start _ sp) (span_length _ sp)
                         (span_format _ sp) fs) spans formats) p
    = Some (Some format).
Proof.
  induction spans as [|sp rest IH]; intros formats Hp Hs Hc.
  - destruct Hc as [Hc|Hc]; [exact Hc | inversion Hc].
  - inversion Hs as [|? ? [Hf Hst] Hr]; subst. cbn [fold_left].
    apply IH; [now rewrite setFormat_length | exact Hr |].
    destruct (setFormat_at sp formats p Hst Hp) as [Hy Hn].
    destruct (covers_dec sp p) as [C|C].
    + left. now rewrite (Hy C).
    + rewrite (Hn C). destruct Hc as [Hc|Hc]; [now left|].
      inversion Hc; subst; [contradiction | now right].
Qed.

Lemma fold_setFormat_length (spans : list (span text_format)) :
  forall formats,
    List.length
      (fold_left
         (fun fs sp => setFormat _ (span_start _ sp) (span_length _ sp)
                         (span_format _ sp) fs) spans formats)
    = List.length formats.
Proof.
  induction spans as [|sp rest IH]; intros formats; [reflexivity|].
  cbn [fold_left]. now rewrite IH, setFormat_length.
Qed.

(** X14.  The last writer wins: after the pass, a character carries the
    format of the last rule of the table that has a span over it, what
    the rules before it set there being overwritten. *)
Theorem last_rule_wins (fuel : nat) (rules1 rules2 : list (qregexp * text_format))
  (pattern : qregexp) (format : text_format) (text : string) (p : nat) :
  p < String.length text ->
  Exists (fun sp => covers _ sp p) (highlightBlock _ fuel [(pattern, format)] text) ->
  Forall (fun sp => ~ covers _ sp p) (highlightBlock _ fuel rules2 text) ->
  nth_error
    (formats_after _
       (highlightBlock _ fuel (rules1 ++ (pattern, format) :: rules2) text)
       text) p
  = Some (Some format).
Proof.
  intros Hp He Hn. unfold formats_after.
  change ((pattern, format) :: rules2) with ([(pattern, format)] ++ rules2).
  rewrite !highlightBlock_app, !fold_left_app.
  rewrite fold_setFormat_keeps; [| | apply highlightBlock_starts | exact Hn].
  - apply fold_setFormat_wins.
    + now rewrite fold_setFormat_length, repeat_length.
    + cbn [highlightBlock].
      destruct (indexIn pattern text 0%Z) as [index length].
      rewrite app_nil_r. apply rule_spans_own.
    + right. exact He.
  - now rewrite !fold_setFormat_length, repeat_length.
Qed.

End HighlightingMore.

Lemma any_char_match_advances : Spec.match_advances Tiny.any_char.
Proof.
  intros e text offset index length H Hpos. simpl in H.
  destruct ((0 <=? offset) && (offset <? Z.of_nat (String.length text)))%Z
    eqn:E; injection H as <- <-; lia.
Qed.

Lemma rule_spans_left_to_right_witness :
  Forall (fun sp => (0 < Highlighter.span_length _ sp)%Z)
    (@Highlighter.highlightBlock Tiny.any_char nat 5 [(tt, 7)] "ab").
Proof.
  exact (proj2 (@rule_spans_left_to_right Tiny.any_char nat 5 tt 7 "ab"
                  any_char_match_advances)).
Defined.

Lemma empty_match_never_ends_witness :
  List.length
    (@Highlighter.rule_spans Small.empty_match nat 9 tt 7 "ab" 1%Z 0%Z) = 9.
Proof.
  exact (@empty_match_never_ends Small.empty_match nat 9 tt 7 "ab" 1%Z
           ltac:(lia) eq_refl).
Defined.

Lemma last_rule_wins_witness :
  nth_error
    (Painting.formats_after nat
       (@Highlighter.highlightBlock Tiny.any_char nat 5
          ([(tt, 1)] ++ [(tt, 2)]) "ab") "ab") 0
  = Some (Some 2).
Proof.
  apply (@last_rule_wins Tiny.any_char nat 5 [(tt, 1)] [] tt 2 "ab" 0).
  - simpl. lia.
  - apply Exists_cons_hd. unfold Painting.covers. simpl. lia.
  - constructor.
Defined.

Lemma highlightBlock_finishes_witness :
  @Highlighter.highlightBlock Tiny.any_char nat (3 + 4) [(tt, 7)] "ab"
  = @Highlighter.highlightBlock Tiny.any_char nat 3 [(tt, 7)] "ab".
Proof.
  exact (@highlightBlock_finishes Tiny.any_char nat [(tt, 7)] "ab" 4
           any_char_match_in_text any_char_match_advances).
Defined.

(** ** More on the find bar *)

Section FindMore.

Import FindBar Session.






Lemma finditer_from_after (q text : string) :
  forall pos skip p,
    In p (finditer_from q text pos skip) -> pos + skip <= p.
Proof.
  induction text as [|c rest IH]; intros pos skip p H; [contradiction|].
  simpl in H. destruct skip as [|k].
  - destruct (imatch q (String c rest)).
    + destruct H as [<- | H]; [lia | apply IH in H; lia].
    + apply IH in H. lia.
  - apply IH in H. lia.
Qed.

Lemma finditer_from_matches (q text : string) :
  forall pos skip p,
    In p (finditer_from q text pos skip) ->
    exists j, p = pos + j /\ imatch q (Json.drop j text) = true.
Proof.
  induction text as [|c rest IH]; intros pos skip p H; [contradiction|].
  simpl in H. destruct skip as [|k].
  - destruct (imatch q (String c rest)) eqn:E.
    + destruct H as [<- | H].
      * exists 0. split; [lia | exact E].
      * apply IH in H. destruct H as [j [-> Hj]].
        exists (S j). split; [lia | exact Hj].
    + apply IH in H. destruct H as [j [-> Hj]].
      exists (S j). split; [lia | exact Hj].
  - apply IH in H. destruct H as [j [-> Hj]].
    exists (S j). split; [lia | exact Hj].
Qed.

Lemma finditer_from_apart (q text : string) :
  truthy q = true ->
  forall pos skip,
    StronglySorted (fun a b => a + String.length q <= b)
      (finditer_from q text pos skip).
Proof.
  intros Hq. induction text as [|c rest IH]; intros pos skip; simpl;
    [constructor|].
  destruct skip as [|k]; [|apply IH].
  destruct (imatch q (String c rest)); [|apply IH].
  constructor; [apply IH|].
  apply Forall_forall. intros p Hp. apply finditer_from_after in Hp.
  destruct q; [discriminate|]. simpl in *. lia.
Qed.

Lemma finditer_from_complete (q text : string) :
  truthy q = true ->
  forall pos skip j,
    skip <= j ->
    imatch q (Json.drop j text) = true ->
    exists r, In r (finditer_from q text pos skip)
              /\ r <= pos + j < r + String.length q.
Proof.
  intros Hq. induction text as [|c rest IH]; intros pos skip j Hs Hm.
  - destruct q; [discriminate|]. now destruct j.
  - simpl. destruct skip as [|k].
    + destruct (imatch q (String c rest)) eqn:E.
      * destruct (Nat.lt_ge_cases j (String.length q)) as [Hlt|Hge].
        -- exists pos. split; [now left | lia].
        -- destruct j as [|j']; [destruct q; [discriminate | simpl in Hge; lia]|].
           destruct (IH (S pos) (String.length q - 1) j') as [r [Hr Hb]];
             [lia | exact Hm |].
           exists r. split; [now right | lia].
      * destruct j as [|j']; [simpl in Hm; congruence|].
        destruct (IH (S pos) 0 j') as [r [Hr Hb]]; [lia | exact Hm |].
        exists r. split; [exact Hr | lia].
    + destruct j as [|j']; [lia|].
      destruct (IH (S pos) k j') as [r [Hr Hb]]; [lia | exact Hm |].
      exists r. split; [exact Hr | lia].
Qed.

(** X16.  The positions [count_matches] records for a query that is not
    empty are occurrences of the query in the document, letter case
    ignored, each inside the document; they increase and are at least
    the length of the query apart, so that the matches do not overlap;
    and no occurrence is missed except one that overlaps a recorded
    match. *)
Theorem count_matches_positions (st : state) :
  truthy (search_text st) = true ->
  let q := search_text st in
  let text := plain_text st in
  let positions := match_positions (count_matches st) in
  total_matches (count_matches st) = List.length positions
  /\ Forall (fun p => imatch q (Json.drop p text) = true
                      /\ p + String.length q <= String.length text) positions
  /\ StronglySorted (fun a b => a + String.length q <= b) positions
  /\ (forall j, imatch q (Json.drop j text) = true ->
                exists r, In r positions /\ r <= j < r + String.length q).
Proof.
  intros Hq q text positions.
  assert (E : match_positions (count_matches st) = finditer_starts q text
              /\ total_matches (count_matches st)
                 = List.length (finditer_starts q text)).
  { unfold q, text. clear q text positions.
    destruct st as [fe fl cmi tm stx mp pt c sm]. simpl in Hq.
    unfold count_matches. cbn [plain_text search_text]. rewrite Hq.
    destruct (truthy pt) eqn:Ht; cbn [negb orb].
    - cbn [set_matches total_matches plain_text search_text find_edit
           find_label current_match_index match_positions cursor
           status_message].
      destruct (0 <? List.length (finditer_starts stx pt))%nat;
        split; reflexivity.
    - apply truthy_false_iff in Ht. subst pt. split; reflexivity. }
  destruct E as [E1 E2]. unfold positions. rewrite E1, E2.
  split; [reflexivity|]. split; [|split].
  - apply Forall_forall. intros p Hp. split.
    + apply finditer_from_matches in Hp. destruct Hp as [j [-> Hj]]. exact Hj.
    + now apply finditer_starts_bounds.
  - now apply finditer_from_apart.
  - intros j Hj.
    destruct (finditer_from_complete q text Hq 0 0 j (Nat.le_0_l j) Hj)
      as [r [Hr Hb]].
    exists r. split; [exact Hr | lia].
Qed.

Lemma count_matches_positions_witness :
  match_positions
    (count_matches (on_text_changed "aa"
                      (init "aaaaa" {| anchor := 0; position := 0 |})))
  = [0; 2]
  /\ StronglySorted (fun a b => a + 2 <= b) [0; 2].
Proof.
  split; [reflexivity|].
  exact (proj1 (proj2 (proj2
           (count_matches_positions
              (on_text_changed "aa"
                 (init "aaaaa" {| anchor := 0; position := 0 |}))
              eq_refl)))).
Defined.

End FindMore.

(** ** The find bar over time *)

Section FindSessions.

Import FindBar Session.

Ltac fields :=
  cbn [set_label set_status set_current set_search_text set_matches
       set_cursor with_document find_edit find_label current_match_index
       total_matches search_text match_positions plain_text cursor
       status_message] in *.

Lemma count_matches_fields (st : state) :
  find_edit (count_matches st) = find_edit st
  /\ search_text (count_matches st) = search_text st
  /\ plain_text (count_matches st) = plain_text st
  /\ cursor (count_matches st) = cursor st
  /\ total_matches (count_matches st)
     = List.length (match_positions (count_matches st))
  /\ (current_match_index st = 0 ->
      current_match_index (count_matches st)
      <= total_matches (count_matches st)).
Proof.
  destruct st as [fe fl cmi tm stx mp pt c sm]. unfold count_matches. fields.
  destruct (negb (truthy pt) || negb (truthy stx)); fields.
  - repeat split; try reflexivity. intros ->. lia.
  - destruct (0 <? List.length (finditer_starts stx pt))%nat eqn:E; fields;
      repeat split; try reflexivity.
    + intros _. apply Nat.ltb_lt in E. lia.
    + intros ->. lia.
Qed.

Lemma next_after_range (l : list nat) (cur : nat) :
  forall i k, next_after l cur i = Some k -> i <= k < i + List.length l.
Proof.
  induction l as [|a l IH]; intros i k H; [discriminate|].
  simpl in H. destruct (cur <? a)%nat.
  - injection H as <-. simpl. lia.
  - apply IH in H. simpl. lia.
Qed.

Lemma select_next_fields (q : string) (st : state) :
  find_edit (select_next q st) = find_edit st
  /\ search_text (select_next q st) = search_text st
  /\ plain_text (select_next q st) = plain_text st
  /\ match_positions (select_next q st) = match_positions st
  /\ total_matches (select_next q st) = total_matches st
  /\ (total_matches st = List.length (match_positions st) ->
      total_matches st <> 0 ->
      current_match_index (select_next q st) <= total_matches st).
Proof.
  destruct st as [fe fl cmi tm stx mp pt c sm]. unfold select_next. fields.
  destruct (next_after mp (current_pos_of c) 0) as [i|] eqn:En; fields.
  - destruct (nth_error mp i); fields; repeat split; try reflexivity;
      intros Ht _; apply next_after_range in En; lia.
  - destruct (nth_error mp 0); fields; repeat split; try reflexivity;
      intros _ Hz; lia.
Qed.

Lemma ensure_counted_fields (q : string) (st : state) :
  find_edit (ensure_counted q st) = find_edit st
  /\ plain_text (ensure_counted q st) = plain_text st
  /\ cursor (ensure_counted q st) = cursor st
  /\ (match_positions st <> [] ->
      match_positions (ensure_counted q st) = match_positions st
      /\ total_matches (ensure_counted q st) = total_matches st)
  /\ (q = find_edit st -> well_formed st -> well_formed (ensure_counted q st)).
Proof.
  unfold ensure_counted.
  set (st1 := if negb (String.eqb q (search_text st))
              then set_current 0 st else st).
  assert (H1 : find_edit st1 = find_edit st /\ plain_text st1 = plain_text st
               /\ cursor st1 = cursor st
               /\ match_positions st1 = match_positions st
               /\ total_matches st1 = total_matches st
               /\ search_text st1 = search_text st
               /\ (well_formed st -> well_formed st1)).
  { unfold st1. destruct (negb (String.eqb q (search_text st))).
    - destruct st. fields. repeat split; try reflexivity.
      + apply H.
      + fields. lia.
      + apply H.
    - repeat split; try reflexivity; apply H. }
  destruct H1 as [E1 [E2 [E3 [E4 [E5 [E6 W]]]]]].
  destruct (match_positions st1) as [|m ms] eqn:Em.
  - destruct (truthy q).
    + destruct (count_matches_fields (set_search_text q st1))
        as [C1 [C2 [C3 [C4 [C5 C6]]]]].
      rewrite C1, C3, C4.
      replace (find_edit (set_search_text q st1)) with (find_edit st1) in *
        by (now destruct st1).
      replace (plain_text (set_search_text q st1)) with (plain_text st1)
        by (now destruct st1).
      replace (cursor (set_search_text q st1)) with (cursor st1)
        by (now destruct st1).
      replace (current_match_index (set_search_text q st1))
        with (current_match_index st1) in * by (now destruct st1).
      replace (search_text (set_search_text q st1)) with q in *
        by (now destruct st1).
      split; [exact E1|]. split; [exact E2|]. split; [exact E3|].
      split; [intros Hne; congruence|].
      intros Hq Hw. apply W in Hw. destruct Hw as [Wt [Wc _]].
      unfold well_formed. split; [exact C5|]. split.
      * apply C6. rewrite Em in Wt. simpl in Wt. lia.
      * rewrite C2, C1. congruence.
    + split; [exact E1|]. split; [exact E2|]. split; [exact E3|].
      split; [intros Hne; congruence|]. intros _. exact W.
  - split; [exact E1|]. split; [exact E2|]. split; [exact E3|].
    split; [intros _; split; congruence|]. intros _. exact W.
Qed.

Lemma on_text_changed_fields (q : string) (st : state) :
  plain_text (on_text_changed q st) = plain_text st
  /\ cursor (on_text_changed q st) = cursor st
  /\ find_edit (on_text_changed q st) = q
  /\ (well_formed st -> well_formed (on_text_changed q st)).
Proof.
  unfold on_text_changed. fields.
  destruct (negb (String.eqb q (search_text st))) eqn:E.
  - destruct (truthy q) eqn:Hq.
    + match goal with
      | |- context [count_matches ?s] =>
          destruct (count_matches_fields s) as [C1 [C2 [C3 [C4 [C5 C6]]]]]
      end.
      fields. rewrite C1, C3, C4.
      split; [reflexivity|]. split; [reflexivity|]. split; [reflexivity|].
      intros _. unfold well_formed. split; [exact C5|]. split.
      * apply C6. reflexivity.
      * now rewrite C2, C1.
    + fields. split; [reflexivity|]. split; [reflexivity|].
      split; [reflexivity|]. intros _. unfold well_formed. fields.
      repeat split. lia.
  - apply negb_false_iff, String.eqb_eq in E.
    split; [reflexivity|]. split; [reflexivity|]. split; [reflexivity|].
    unfold well_formed. fields. intros [Wt [Wc _]]. repeat split; auto.
Qed.

Lemma find_next_fields (st : state) :
  plain_text (find_next st) = plain_text st
  /\ find_edit (find_next st) = find_edit st
  /\ (match_positions st <> [] ->
      match_positions (find_next st) = match_positions st)
  /\ (well_formed st -> well_formed (find_next st)).
Proof.
  unfold find_next.
  destruct (negb (truthy (find_edit st))).
  { destruct st. fields. split; [reflexivity|]. split; [reflexivity|].
    split; [reflexivity|]. unfold well_formed. fields. tauto. }
  destruct (ensure_counted_fields (find_edit st) st)
    as [E1 [E2 [E3 [E4 E5]]]].
  specialize (E5 eq_refl).
  set (st1 := ensure_counted (find_edit st) st) in *.
  destruct (total_matches st1 =? 0)%nat eqn:Z.
  - replace (plain_text (set_status "Text not found"
                           (set_label "Find: (0)" st1)))
      with (plain_text st1) by (now destruct st1).
    replace (find_edit (set_status "Text not found"
                          (set_label "Find: (0)" st1)))
      with (find_edit st1) by (now destruct st1).
    replace (match_positions (set_status "Text not found"
                                (set_label "Find: (0)" st1)))
      with (match_positions st1) by (now destruct st1).
    split; [exact E2|]. split; [exact E1|].
    split; [intros Hne; now apply E4|].
    intros Hw. apply E5 in Hw. destruct st1. unfold well_formed in *.
    fields. exact Hw.
  - apply Nat.eqb_neq in Z.
    destruct (select_next_fields (find_edit st) st1)
      as [S1 [S2 [S3 [S4 [S5 S6]]]]].
    rewrite S3, S1, S4.
    split; [exact E2|]. split; [exact E1|].
    split; [intros Hne; now apply E4|].
    intros Hw. apply E5 in Hw. destruct Hw as [Wt [Wc Ws]].
    unfold well_formed. rewrite S5, S4, S2, S1.
    split; [exact Wt|]. split; [|exact Ws].
    apply S6; assumption.
Qed.

(** X17.  In every state the find bar can reach - it is created, the
    user types in its field, asks for the next match, edits the document
    or moves the cursor - the number of matches is the number of
    recorded positions, the index shown is at most that number, and the
    stored query is the text of the field. *)
Theorem reachable_well_formed (st : state) :
  reachable st -> well_formed st.
Proof.
  induction 1 as [text c | q st _ IH | st _ IH | text c st _ IH].
  - unfold well_formed. simpl. repeat split; lia.
  - now apply on_text_changed_fields.
  - now apply find_next_fields.
  - destruct st. unfold well_formed in *. fields. exact IH.
Qed.

Lemma reachable_well_formed_witness :
  well_formed
    (find_next (on_text_changed "abc"
                  (init "abcabcabc" {| anchor := 6; position := 6 |}))).
Proof.
  apply reachable_well_formed.
  apply reachable_next, reachable_typed, reachable_init.
Defined.

(** X18.  The find bar never changes the document: typing a query and
    asking for the next match leave the text as it is.  Nor does it
    follow the document: once positions are recorded, asking for the
    next match keeps them as they are, even when the document has been
    edited since and they no longer are positions of the query. *)
Theorem find_bar_reads_only (st : state) :
  (forall q, plain_text (on_text_changed q st) = plain_text st)
  /\ plain_text (find_next st) = plain_text st
  /\ (forall text c,
        match_positions st <> [] ->
        match_positions (find_next (with_document text c st))
        = match_positions st).
Proof.
  split; [intros q; apply on_text_changed_fields|].
  split; [apply find_next_fields|].
  intros text c Hne.
  destruct (find_next_fields (with_document text c st)) as [_ [_ [H _]]].
  rewrite H; destruct st; fields; [reflexivity | exact Hne].
Qed.

Lemma find_bar_reads_only_witness :
  match_positions
    (find_next
       (with_document "no match here" {| anchor := 0; position := 0 |}
          (on_text_changed "abc"
             (init "abcabcabc" {| anchor := 0; position := 0 |}))))
  = [0; 3; 6].
Proof.
  exact (proj2 (proj2 (find_bar_reads_only
           (on_text_changed "abc"
              (init "abcabcabc" {| anchor := 0; position := 0 |}))))
           "no match here" {| anchor := 0; position := 0 |}
           ltac:(discriminate)).
Defined.

Lemma truthy_length (q : string) :
  truthy q = true -> 0 < String.length q.
Proof. destruct q; [discriminate | simpl; lia]. Qed.

Lemma current_pos_of_selection (q : string) (m : nat) :
  truthy q = true -> current_pos_of (selection_at q m) = m.
Proof.
  intros Hq. apply truthy_length in Hq.
  unfold current_pos_of, selection_at, hasSelection, selectionStart.
  cbn [anchor position].
  replace (m =? m + String.length q)%nat with false
    by (symmetry; apply Nat.eqb_neq; lia).
  cbn [negb]. lia.
Qed.

Lemma next_after_successor (l : list nat) :
  StronglySorted lt l ->
  forall k i, S k < List.length l ->
    next_after l (nth k l 0) i = Some (i + S k).
Proof.
  induction 1 as [|a l Hs IH Ha]; intros k i Hk; [simpl in Hk; lia|].
  rewrite Forall_forall in Ha. simpl in Hk. destruct k as [|k].
  - cbn [nth next_after]. rewrite Nat.ltb_irrefl.
    destruct l as [|b l]; [simpl in Hk; lia|].
    cbn [next_after].
    replace (a <? b)%nat with true
      by (symmetry; apply Nat.ltb_lt, Ha; now left).
    f_equal. lia.
  - cbn [nth next_after].
    replace (nth k l 0 <? a)%nat with false
      by (symmetry; apply Nat.ltb_ge, Nat.lt_le_incl, Ha, nth_In; lia).
    rewrite IH by lia. f_equal. lia.
Qed.

Lemma next_after_last (l : list nat) :
  StronglySorted lt l ->
  forall k i, S k = List.length l -> next_after l (nth k l 0) i = None.
Proof.
  induction 1 as [|a l Hs IH Ha]; intros k i Hk; [discriminate|].
  rewrite Forall_forall in Ha. simpl in Hk. destruct k as [|k].
  - destruct l; [|discriminate]. cbn [nth next_after].
    now rewrite Nat.ltb_irrefl.
  - cbn [nth next_after].
    replace (nth k l 0 <? a)%nat with false
      by (symmetry; apply Nat.ltb_ge, Nat.lt_le_incl, Ha, nth_In; lia).
    apply IH. lia.
Qed.

(** One press of Find Next from the selection of the match number [k]
    (counted from 0). *)
Lemma find_next_step (q : string) (st : state) (k : nat) :
  session q st ->
  k < List.length (match_positions st) ->
  cursor st = selection_at q (nth k (match_positions st) 0) ->
  let k' := S k mod List.length (match_positions st) in
  session q (find_next st)
  /\ match_positions (find_next st) = match_positions st
  /\ cursor (find_next st) = selection_at q (nth k' (match_positions st) 0)
  /\ current_match_index (find_next st) = k' + 1.
Proof.
  intros [Hf [Hs [Hq [Hm Ht]]]] Hk Hc k'.
  assert (Hne : match_positions st <> [])
    by (destruct (match_positions st); [simpl in Hk; lia | discriminate]).
  rewrite (find_next_counted st q Hf Hs Hq Hne Ht).
  destruct (select_next_fields q st) as [S1 [S2 [S3 [S4 [S5 _]]]]].
  assert (Hsorted : StronglySorted lt (match_positions st))
    by (rewrite Hm; apply finditer_from_sorted).
  assert (Hin : forall j, j < List.length (match_positions st) ->
                  nth j (match_positions st) 0 + String.length q
                  <= String.length (plain_text st)).
  { intros j Hj. apply finditer_starts_bounds. rewrite <- Hm.
    now apply nth_In. }
  assert (Hcur : current_pos_of (cursor st) = nth k (match_positions st) 0)
    by (rewrite Hc; now apply current_pos_of_selection).
  assert (Hsel :
            cursor (select_next q st)
            = selection_at q (nth k' (match_positions st) 0)
            /\ current_match_index (select_next q st) = k' + 1).
  { destruct (Nat.eq_dec (S k) (List.length (match_positions st))) as [E|E].
    - assert (Hk' : k' = 0) by (unfold k'; rewrite <- E; apply Nat.Div0.mod_same).
      rewrite Hk'.
      apply (select_next_selects q st None).
      + rewrite Hcur. now apply next_after_last.
      + apply nth_error_nth'. lia.
      + apply Hin. lia.
    - assert (Hk' : k' = S k) by (unfold k'; apply Nat.mod_small; lia).
      rewrite Hk'.
      apply (select_next_selects q st (Some (S k))).
      + rewrite Hcur. apply (next_after_successor _ Hsorted k 0). lia.
      + apply nth_error_nth'. lia.
      + apply Hin. lia. }
  destruct Hsel as [Hsel1 Hsel2].
  split; [|split; [exact S4 | split; [exact Hsel1 | exact Hsel2]]].
  unfold session. rewrite S1, S2, S3, S4, S5. repeat split; assumption.
Qed.

(** X19.  Find Next goes round the matches in order.  In a search
    session on a query that is not empty, with the match number [k]
    (counted from 0) of [N] selected, pressing Find Next [n] times
    selects the match number [(k + n) mod N] and shows its number counted
    from 1; the recorded positions stay as they are and the session goes
    on. *)
Theorem find_next_cycles (q : string) (st : state) (k n : nat) :
  session q st ->
  k < List.length (match_positions st) ->
  cursor st = selection_at q (nth k (match_positions st) 0) ->
  let N := List.length (match_positions st) in
  let st' := Nat.iter n find_next st in
  session q st'
  /\ match_positions st' = match_positions st
  /\ cursor st'
     = selection_at q (nth ((k + n) mod N) (match_positions st) 0)
  /\ (0 < n -> current_match_index st' = (k + n) mod N + 1).
Proof.
  intros Hs Hk Hc N. induction n as [|n IH].
  - cbn [Nat.iter]. rewrite Nat.add_0_r, Nat.mod_small by exact Hk.
    repeat split; try assumption; try apply Hs. intros H. lia.
  - cbn [Nat.iter]. cbv zeta in IH. destruct IH as [I1 [I2 [I3 _]]].
    assert (Hlt : (k + n) mod N < N) by (apply Nat.mod_upper_bound; lia).
    destruct (find_next_step q (Nat.iter n find_next st) ((k + n) mod N) I1)
      as [F1 [F2 [F3 F4]]].
    + rewrite I2. exact Hlt.
    + rewrite I2. exact I3.
    + rewrite I2 in F2, F3, F4. fold N in F3, F4.
      assert (E : S ((k + n) mod N) mod N = (k + S n) mod N).
      { replace (k + S n) with (1 + (k + n)) by lia.
        rewrite <- (Nat.Div0.add_mod_idemp_r 1 (k + n) N). reflexivity. }
      rewrite E in F3, F4.
      split; [exact F1|]. split; [exact F2|]. split; [exact F3|].
      intros _. exact F4.
Qed.

Lemma find_next_cycles_witness :
  cursor
    (Nat.iter 4 find_next
       (find_next (on_text_changed "ab"
                     (init "ab AB ab" {| anchor := 0; position := 0 |}))))
  = {| anchor := 6; position := 8 |}.
Proof.
  exact (proj1 (proj2 (proj2
           (find_next_cycles "ab"
              (find_next (on_text_changed "ab"
                            (init "ab AB ab" {| anchor := 0; position := 0 |})))
              1 4
              ltac:(repeat split; vm_compute; reflexivity)
              ltac:(vm_compute; lia)
              ltac:(vm_compute; reflexivity))))).
Defined.

Lemma reachable_invariant (st : state) :
  reachable st ->
  well_formed st /\ (search_text st = "" -> match_positions st = []).
Proof.
  induction 1 as [text c | q st _ [W IH] | st _ [W IH] | text c st _ [W IH]].
  - split; [|reflexivity]. unfold well_formed. simpl. repeat split; lia.
  - split; [now apply on_text_changed_fields|].
    unfold on_text_changed. fields.
    destruct (negb (String.eqb q (search_text st))) eqn:E.
    + destruct (truthy q) eqn:Hq.
      * match goal with
        | |- context [count_matches ?s] =>
            destruct (count_matches_fields s) as [_ [C2 _]]
        end.
        rewrite C2. fields. intros ->. discriminate.
      * reflexivity.
    + fields. exact IH.
  - split; [now apply find_next_fields|].
    destruct (find_next_fields st) as [_ [F2 [_ F4]]].
    destruct (F4 W) as [_ [_ Ws]]. rewrite Ws, F2.
    unfold find_next. destruct (truthy (find_edit st)) eqn:Hq.
    + intros Hn. rewrite Hn in Hq. discriminate.
    + cbn [negb]. intros _. destruct W as [_ [_ Ws']].
      destruct st. fields. apply IH.
      destruct find_edit0; [exact Ws' | discriminate].
  - split; [|destruct st; fields; exact IH].
    destruct st. unfold well_formed in *. fields. exact W.
Qed.

(** X20.  Opening the find bar forgets the search.  With the bar hidden,
    Find Next (F3) opens it with an empty field: no query and no position
    is kept from what the bar was used for before, and the document and
    the cursor are as they were.  Find Next once more, on the empty
    field, still moves nothing. *)
Theorem reopened_bar_forgets (w : Window.window) :
  reachable (Window.find_bar w) -> Window.isVisible w = false ->
  let w' := Window.find_next w in
  let w'' := Window.find_next w' in
  Window.isVisible w' = true
  /\ find_edit (Window.find_bar w') = ""
  /\ search_text (Window.find_bar w') = ""
  /\ match_positions (Window.find_bar w') = []
  /\ total_matches (Window.find_bar w') = 0
  /\ plain_text (Window.find_bar w') = plain_text (Window.find_bar w)
  /\ cursor (Window.find_bar w') = cursor (Window.find_bar w)
  /\ cursor (Window.find_bar w'') = cursor (Window.find_bar w)
  /\ match_positions (Window.find_bar w'') = []
  /\ find_label (Window.find_bar w'') = "Find:".
Proof.
  destruct w as [st v]. cbn [Window.find_bar Window.isVisible].
  intros Hr ->. apply reachable_invariant in Hr. destruct Hr as [W He].
  destruct W as [Wt [Wc Ws]].
  cbv [Window.find_next Window.show_find_dialog Window.isVisible
       Window.find_bar].
  assert (H : find_edit (Window.clear st) = ""
              /\ search_text (Window.clear st) = ""
              /\ match_positions (Window.clear st) = []
              /\ total_matches (Window.clear st) = 0
              /\ plain_text (Window.clear st) = plain_text st
              /\ cursor (Window.clear st) = cursor st).
  { unfold Window.clear. destruct (truthy (find_edit st)) eqn:Hq.
    - unfold on_text_changed. fields.
      replace (String.eqb "" (search_text st)) with false.
      + cbn [negb truthy]. fields. repeat split; reflexivity.
      + symmetry. apply String.eqb_neq. intros Hn.
        rewrite <- Ws, <- Hn in Hq. discriminate.
    - assert (Hf : find_edit st = "")
        by (destruct (find_edit st); [reflexivity | discriminate]).
      assert (Hs : search_text st = "") by congruence.
      specialize (He Hs). rewrite He in Wt. simpl in Wt.
      repeat split; assumption. }
  destruct H as [H1 [H2 [H3 [H4 [H5 H6]]]]].
  repeat split; try assumption.
  - unfold FindBar.find_next. rewrite H1. cbn [truthy negb].
    destruct (Window.clear st). fields. exact H6.
  - unfold FindBar.find_next. rewrite H1. cbn [truthy negb].
    destruct (Window.clear st). fields. exact H3.
  - unfold FindBar.find_next. rewrite H1. cbn [truthy negb].
    destruct (Window.clear st). reflexivity.
Qed.

Lemma reopened_bar_forgets_witness :
  match_positions
    (Window.find_bar
       (Window.find_next
          {| Window.find_bar :=
               FindBar.find_next
                 (on_text_changed "abc"
                    (init "abcabcabc" {| anchor := 0; position := 0 |}));
             Window.isVisible := false |}))
  = [].
Proof.
  exact (proj1 (proj2 (proj2 (proj2
           (reopened_bar_forgets
              {| Window.find_bar :=
                   FindBar.find_next
                     (on_text_changed "abc"
                        (init "abcabcabc" {| anchor := 0; position := 0 |}));
                 Window.isVisible := false |}
              (reachable_next _ (reachable_typed _ _ (reachable_init _ _)))
              eq_refl))))).
Defined.

End FindSessions.

(** ** The languages a highlighter is made for *)

Section KnownLanguages.

Import Utils Opening Rules.

Lemma detect_language_known (f : string) :
  In (detect_language f) known_languages.
Proof.
  unfold detect_language, known_languages.
  destruct (negb (truthy f)); [simpl; tauto|].
  generalize (lower (path_suffix f)). intros k. unfold language_map.
  cbn [dict_get].
  repeat match goal with
         | |- context [String.eqb ?a k] => destruct (String.eqb a k)
         end; simpl; tauto.
Qed.

Lemma detect_if_generic_known_language (language content : string) :
  In language known_languages ->
  In (detect_if_generic language content) known_languages.
Proof.
  intros H. unfold detect_if_generic.
  destruct (String.eqb language "generic"); [|exact H].
  destruct (detect_content_range content) as [E | [E | E]]; rewrite E;
    [exact H | simpl; tauto | simpl; tauto].
Qed.

Lemma known_language_setup (l : string) :
  In l known_languages ->
  (setup_highlighting l = setup_generic_highlighting <-> l = "generic").
Proof.
  unfold known_languages. simpl.
  intros [<- | [<- | [<- | [<- | [<- | [<- | [<- | []]]]]]]];
    vm_compute; split; (discriminate || reflexivity).
Qed.

(** X21.  Every highlighter the editor makes - when a file is opened
    and when it is saved under a new name - is for a language that
    [setup_highlighting] has a branch for: the rules for text of no
    known kind are used only when the language is [generic], never
    because the name of a detected language is not known to the
    highlighter. *)
Theorem highlighter_language_known (filepath content : string) :
  let saved := update_syntax_highlighting (detect_language filepath) content in
  (In saved known_languages
   /\ (setup_highlighting saved = setup_generic_highlighting
       <-> saved = "generic"))
  /\ forall l,
       highlighter_language (open_file_from_path filepath content) = Some l ->
       In l known_languages
       /\ (setup_highlighting l = setup_generic_highlighting
           <-> l = "generic").
Proof.
  assert (K : forall c, In (update_syntax_highlighting
                              (detect_language filepath) c) known_languages).
  { intros c. unfold update_syntax_highlighting.
    apply detect_if_generic_known_language, detect_language_known. }
  split.
  - split; [apply K | apply known_language_setup, K].
  - intros l. unfold open_file_from_path.
    destruct (len content <? 500000)%Z; cbn [highlighter_language];
      [|discriminate].
    intros [= <-].
    assert (K' : In (update_syntax_highlighting
                       (detect_if_generic (detect_language filepath)
                          (sample_of content)) content) known_languages).
    { unfold update_syntax_highlighting.
      apply detect_if_generic_known_language,
        detect_if_generic_known_language, detect_language_known. }
    split; [exact K' | apply known_language_setup, K'].
Qed.

Lemma highlighter_language_known_witness :
  In "xml" known_languages
  /\ (setup_highlighting "xml" = setup_generic_highlighting
      <-> "xml" = "generic").
Proof.
  exact (proj2 (highlighter_language_known "notes" "<a><b/></a>") "xml"
           ltac:(vm_compute; reflexivity)).
Defined.

End KnownLanguages.
